(** * Problem service: technician assignment and problem lifecycle

    A shallow embedding of [src/index.ts], the Express/Firestore service
    that files problems, assigns each one to the least loaded qualified
    technician and releases the technician when the problem is solved.

    The document store, the clock, the id generator and the two remote
    collaborators (the notification service and the user-management
    service) are outside the file; they are modelled by their documented
    behaviour:

    - a collection is iterated in a fixed order, [where] keeps the
      documents that satisfy every equality predicate, in that order;
    - [add] stores a document under a server-generated id and fails if
      that id is taken; [update] fails on a missing document; [delete]
      succeeds whether or not the document exists;
    - [arrayUnion] appends an element that is not yet in the array;
    - a remote call either succeeds or throws. *)

From stdpp Require Import base strings list gmap pretty.
From Stdlib Require Import ZArith Ascii.

(** ** JavaScript values as the handlers use them *)

(** Truthiness of a value that is a string, [null] or [undefined]: the
    empty string is falsy as well. *)
Definition truthy (v : option string) : bool :=
  match v with
  | Some s => negb (bool_decide (s = ""))
  | None => false
  end.

(** [a || b] on such values. *)
Definition js_or (a b : option string) : option string :=
  if truthy a then a else b.

(** A value inside a template literal. *)
Definition js_template (v : option string) : string :=
  match v with
  | Some s => s
  | None => "undefined"
  end.

(** [minWorkload] starts at [Infinity] and only ever takes array lengths. *)
Inductive Workload :=
| Finite (n : nat)
| Infinity.

#[global] Instance Workload_eq_dec : EqDecision Workload.
Proof. solve_decision. Defined.

(** [n < w] for an array length [n]. *)
Definition lt_workload (n : nat) (w : Workload) : bool :=
  match w with
  | Finite m => bool_decide (n < m)
  | Infinity => true
  end.

(** ** Documents *)

(** A document of the [users] collection; every field may be absent. *)
Record User := mkUser {
  role : option string;
  speciality : option string;
  isAvailable : option bool;
  allProblems : option (list string);
  currentProblem : option string;
  lastAssigned : option Z;
  email : option string
}.

(** A document of the [problems] collection ([interface Problem]).
    [assignedTechnician] is [None] for [null]; [solvedAt] is [None] while
    the field is absent.  [status] is whatever string was last written. *)
Record Problem := mkProblem {
  chefId : option string;
  description : option string;
  type : string;
  status : string;
  createdAt : Z;
  isPredefined : bool;
  assignedTechnician : option string;
  solvedAt : option Z
}.

#[global] Instance User_eq_dec : EqDecision User.
Proof. solve_decision. Defined.

#[global] Instance Problem_eq_dec : EqDecision Problem.
Proof. solve_decision. Defined.

(** ** The world: store, console and remote calls *)

(** A remote call that went through. *)
Inductive Outbound :=
| NotifyEmail (to subject body : string)
| PutAvailability (technicianId : string) (available : bool)
    (current : option string).

(** The [users] collection is kept in its iteration order; [problems] is
    only ever reached by id. *)
Record World := mkWorld {
  users : list (string * User);
  problems : gmap string Problem;
  console : list string;
  outbox : list Outbound
}.

(** What a request finds in its surroundings: the id the store generates
    for the next inserted document, the server time, and whether the two
    collaborators are down. *)
Record Env := mkEnv {
  gen_id : string;
  server_time : Z;
  email_down : bool;
  peer_down : bool
}.

(** ** Computations that may throw

    A throw keeps the world it was raised in: writes made before it stay. *)

Inductive Res (A : Type) :=
| Ok (a : A) (w : World)
| Throw (e : string) (w : World).

Arguments Ok {A} a w.
Arguments Throw {A} e w.

Definition M (A : Type) : Type := World → Res A.

#[global] Instance M_ret : MRet M := λ A a w, Ok a w.

#[global] Instance M_bind : MBind M := λ A B f m w,
  match m w with
  | Ok a w' => f a w'
  | Throw e w' => Throw e w'
  end.

(** [try { m } catch (e) { h e }] *)
Definition try_catch {A} (m : M A) (h : string → M A) : M A := λ w,
  match m w with
  | Ok a w' => Ok a w'
  | Throw e w' => h e w'
  end.

Definition final {A} (r : Res A) : World :=
  match r with
  | Ok _ w => w
  | Throw _ w => w
  end.

Definition value {A} (r : Res A) : option A :=
  match r with
  | Ok a _ => Some a
  | Throw _ _ => None
  end.

(** [console.error] and [console.log] *)
Definition console_log (line : string) : M () := λ w,
  Ok () (mkWorld (users w) (problems w) (console w ++ [line]) (outbox w)).

(** ** The store *)

Module Firestore.

Fixpoint lookup_doc (id : string) (docs : list (string * User)) : option User :=
  match docs with
  | [] => None
  | (k, u) :: rest => if bool_decide (k = id) then Some u else lookup_doc id rest
  end.

Fixpoint update_doc (id : string) (f : User → User)
    (docs : list (string * User)) : list (string * User) :=
  match docs with
  | [] => []
  | (k, u) :: rest =>
      if bool_decide (k = id) then (k, f u) :: rest
      else (k, u) :: update_doc id f rest
  end.

(** [db.collection("users").where(...)...get()] *)
Definition query_users (p : User → bool) : M (list (string * User)) := λ w,
  Ok (List.filter (λ d, p d.2) (users w)) w.

(** [.limit(n)] on a snapshot *)
Definition limit {A} (n : nat) (docs : list A) : list A := take n docs.

(** [db.collection("users").doc(id).get()], then [.data()] *)
Definition get_user (id : string) : M (option User) := λ w,
  Ok (lookup_doc id (users w)) w.

(** [db.collection("users").doc(id).update(...)] *)
Definition update_user (id : string) (f : User → User) : M () := λ w,
  match lookup_doc id (users w) with
  | Some _ =>
      Ok () (mkWorld (update_doc id f (users w)) (problems w) (console w) (outbox w))
  | None => Throw "NOT_FOUND" w
  end.

(** [db.collection("problems").add(doc)]; the result is the new id. *)
Definition add_problem (env : Env) (p : Problem) : M string := λ w,
  match problems w !! gen_id env with
  | Some _ => Throw "ALREADY_EXISTS" w
  | None =>
      Ok (gen_id env)
         (mkWorld (users w) (<[gen_id env := p]> (problems w)) (console w) (outbox w))
  end.

(** [db.collection("problems").doc(id).get()], then [.data()] *)
Definition get_problem (id : string) : M (option Problem) := λ w,
  Ok (problems w !! id) w.

(** [db.collection("problems").doc(id).update(...)] *)
Definition update_problem (id : string) (f : Problem → Problem) : M () := λ w,
  match problems w !! id with
  | Some p =>
      Ok () (mkWorld (users w) (<[id := f p]> (problems w)) (console w) (outbox w))
  | None => Throw "NOT_FOUND" w
  end.

(** [db.collection("problems").doc(id).delete()] *)
Definition delete_problem (id : string) : M () := λ w,
  Ok () (mkWorld (users w) (delete id (problems w)) (console w) (outbox w)).

(** [FieldValue.arrayUnion(x)] applied to a field that may be absent *)
Definition arrayUnion (x : string) (field : option (list string)) : list string :=
  match field with
  | None => [x]
  | Some l => if bool_decide (x ∈ l) then l else l ++ [x]
  end.

End Firestore.

(** ** Remote calls ([axios]) *)

Definition axios (down : bool) (call : Outbound) : M () := λ w,
  if down then Throw "connect ECONNREFUSED" w
  else Ok () (mkWorld (users w) (problems w) (console w) (outbox w ++ [call])).

(** ** Requests and responses *)

(** [req.body] of the two creation routes. *)
Record ProblemBody := mkBody {
  body_chefId : option string;
  body_title : option string;
  body_description : option string;
  body_type : string
}.

Inductive Json :=
| ProblemCreated (id assignedTo : string) (currentWorkload : nat + string)
    (message : string)
| PredefinedCreated (id message : string) (assigned : option string)
    (state : string)
| StatusUpdated (message : string) (technicianUpdated : bool)
| Message (message : string)
| ErrorBody (error : string).

Record Response := mkResponse {
  code : nat;
  json : Json
}.

#[global] Instance Json_eq_dec : EqDecision Json.
Proof. solve_decision. Defined.

#[global] Instance Response_eq_dec : EqDecision Response.
Proof. solve_decision. Defined.

Definition when (b : bool) (m : M ()) : M () :=
  if b then m else mret ().

(** ** POST /problems *)

(** [doc.data().allProblems?.length || 0] *)
Definition workload (u : User) : nat :=
  from_option length 0 (allProblems u).

(** The query of step 1. *)
Definition qualified (ty : string) (u : User) : bool :=
  bool_decide (role u = Some "technicien")
  && bool_decide (speciality u = Some ty)
  && bool_decide (isAvailable u = Some true).

(** One turn of the [forEach] of step 2, on the pair
    [(assignedTechnicianId, minWorkload)]. *)
Definition select_step (acc : option string * Workload) (doc : string * User)
    : option string * Workload :=
  let currentProblems := workload doc.2 in
  if lt_workload currentProblems acc.2
  then (Some doc.1, Finite currentProblems)
  else acc.

Definition select_technician (snapshot : list (string * User))
    : option string * Workload :=
  fold_left select_step snapshot (None, Infinity).

(** The [updates] object of step 4, applied to the stored document.
    [isAvailable] is computed from [techData], the copy read just before. *)
Definition assignment_updates (problemId : string) (now : Z)
    (techData : option User) (u : User) : User :=
  {| role := role u;
     speciality := speciality u;
     isAvailable := Some (bool_decide (from_option workload 0 techData + 1 < 3));
     allProblems := Some (Firestore.arrayUnion problemId (allProblems u));
     currentProblem := Some problemId;
     lastAssigned := Some now;
     email := email u |}.

Definition workload_field (w : Workload) : nat + string :=
  match w with
  | Finite n => inl n
  | Infinity => inr "N/A"
  end.

Definition workload_text (w : Workload) : string :=
  match w with
  | Finite n => pretty n
  | Infinity => "Infinity"
  end.

Definition post_problems (env : Env) (req : ProblemBody) : M Response :=
  try_catch
    (techniciansSnapshot ← Firestore.query_users (qualified (body_type req));
     let '(assignedTechnicianId, minWorkload) :=
       select_technician techniciansSnapshot in
     let newProblem :=
       {| chefId := body_chefId req;
          description := js_or (body_description req) (body_title req);
          type := body_type req;
          status := "waiting";
          createdAt := server_time env;
          isPredefined := false;
          assignedTechnician := assignedTechnicianId;
          solvedAt := None |} in
     problemId ← Firestore.add_problem env newProblem;
     match assignedTechnicianId with
     | Some technicianId =>
         when (truthy assignedTechnicianId)
           (techData ← Firestore.get_user technicianId;
            Firestore.update_user technicianId
              (assignment_updates problemId (server_time env) techData);;
            let technicianEmail := techData ≫= email in
            match technicianEmail with
            | Some to =>
                when (truthy technicianEmail)
                  (try_catch
                     (axios (email_down env)
                        (NotifyEmail to "New Problem Assigned"
                           ("You have been assigned a new problem: "
                            +:+ js_template
                                 (js_or (body_description req) (body_title req)))))
                     (λ emailError,
                        console_log ("Email sending failed: " +:+ emailError)))
            | None => mret ()
            end)
     | None => mret ()
     end;;
     mret (mkResponse 201
             (ProblemCreated problemId
                (if truthy assignedTechnicianId
                 then default "" assignedTechnicianId
                 else "no available technician")
                (workload_field minWorkload)
                (if truthy assignedTechnicianId
                 then "Assigned to technician with "
                      +:+ workload_text minWorkload +:+ " existing problems"
                 else "No available technicians found"))))
    (λ error,
       console_log ("Error creating problem: " +:+ error);;
       mret (mkResponse 500 (ErrorBody "Failed to create problem"))).

(** ** POST /problems/predefined *)

Definition post_predefined (env : Env) (req : ProblemBody) : M Response :=
  try_catch
    (let newProblem :=
       {| chefId := Some "system";
          description := js_or (body_description req) (body_title req);
          type := body_type req;
          status := "waiting";
          createdAt := server_time env;
          isPredefined := true;
          assignedTechnician := None;
          solvedAt := None |} in
     problemId ← Firestore.add_problem env newProblem;
     mret (mkResponse 201
             (PredefinedCreated problemId
                "Predefined problem created successfully" None "waiting")))
    (λ error,
       console_log ("Error creating predefined problem: " +:+ error);;
       mret (mkResponse 500 (ErrorBody "Failed to create predefined problem"))).

(** ** PUT /problems/:id *)

(** [updateData]: [status] always, [solvedAt] only for ["solved"]. *)
Definition status_update (status : string) (now : Z) (p : Problem) : Problem :=
  {| chefId := chefId p;
     description := description p;
     type := type p;
     status := status;
     createdAt := createdAt p;
     isPredefined := isPredefined p;
     assignedTechnician := assignedTechnician p;
     solvedAt := if bool_decide (status = "solved") then Some now else solvedAt p |}.

Definition put_problem (env : Env) (problemId status : string) : M Response :=
  try_catch
    (problemData ← Firestore.get_problem problemId;
     let assignedTechnicianId := problemData ≫= assignedTechnician in
     Firestore.update_problem problemId (status_update status (server_time env));;
     match assignedTechnicianId with
     | Some technicianId =>
         when (bool_decide (status = "solved") && truthy assignedTechnicianId)
           (try_catch
              (techDoc ← Firestore.get_user technicianId;
               when (bool_decide (is_Some techDoc))
                 (axios (peer_down env)
                    (PutAvailability technicianId true None)))
              (λ error,
                 console_log ("Error updating technician availability: " +:+ error)))
     | None => mret ()
     end;;
     mret (mkResponse 200
             (StatusUpdated "Problem status updated successfully"
                (bool_decide (status = "solved") && truthy assignedTechnicianId))))
    (λ error,
       console_log ("Error updating problem: " +:+ error);;
       mret (mkResponse 500 (ErrorBody "Failed to update problem"))).

(** ** DELETE /problems/:id

    The handler on a parameter that names the document [problemId] of
    the collection; [delete_problems_id] below is the handler on any
    parameter, with the check that [doc] makes first. *)

Definition delete_problem (problemId : string) : M Response :=
  try_catch
    (Firestore.delete_problem problemId;;
     mret (mkResponse 200 (Message "Problem deleted successfully")))
    (λ error,
       console_log ("Error deleting problem: " +:+ error);;
       mret (mkResponse 500 (ErrorBody "Failed to delete problem"))).

(** ** The Firestore trigger on [problems/{problemId}] *)

(** The query of the trigger: role and speciality only. *)
Definition matching (ty : string) (u : User) : bool :=
  bool_decide (role u = Some "technicien")
  && bool_decide (speciality u = Some ty).

Definition set_assignedTechnician (technicianId : string) (p : Problem) : Problem :=
  {| chefId := chefId p;
     description := description p;
     type := type p;
     status := status p;
     createdAt := createdAt p;
     isPredefined := isPredefined p;
     assignedTechnician := Some technicianId;
     solvedAt := solvedAt p |}.

(** [snapshot] is [event.data], the created document as the event
    carries it; [problemId] is [event.params.problemId]. *)
Definition assignTechnicianToProblem (problemId : string)
    (snapshot : option Problem) : M () :=
  match snapshot with
  | None => console_log "Snapshot is undefined"
  | Some problemData =>
      if isPredefined problemData
      then console_log "Skipping technician assignment for predefined problem"
      else
        let problemType := type problemData in
        try_catch
          (found ← Firestore.query_users (matching problemType);
           let techniciansSnapshot := Firestore.limit 1 found in
           match techniciansSnapshot with
           | [] =>
               console_log ("No technician found for problem type: " +:+ problemType)
           | doc :: _ =>
               let technicianId := doc.1 in
               Firestore.update_problem problemId
                 (set_assignedTechnician technicianId);;
               console_log ("Assigned technician " +:+ technicianId
                            +:+ " to problem " +:+ problemId)
           end)
          (λ error, console_log ("Error assigning technician: " +:+ error))
  end.

(** ** The reading routes *)

(** What the reading routes answer: a list of [{id, ...data}] objects, one
    such object, or [{error}]. *)
Inductive Listing :=
| ProblemList (docs : list (string * Problem))
| ProblemDoc (id : string) (data : Problem)
| ListingError (error : string).

Record Reply := mkReply {
  reply_code : nat;
  reply_json : Listing
}.

(** [query.get()] on the [problems] collection, then [snapshot.docs]: the
    stored documents that pass every [where] of the query. *)
Definition query_problems (p : Problem → bool) : M (list (string * Problem)) :=
  λ w, Ok (List.filter (λ d, p d.2) (map_to_list (problems w))) w.

(** GET /problems/predefined *)
Definition get_predefined : M Reply :=
  try_catch
    (snapshot ← query_problems (λ p, bool_decide (isPredefined p = true));
     mret (mkReply 200 (ProblemList snapshot)))
    (λ error,
       console_log ("Error fetching predefined problems: " +:+ error);;
       mret (mkReply 500 (ListingError "Failed to fetch predefined problems"))).

(** GET /problems/regular *)
Definition get_regular : M Reply :=
  try_catch
    (snapshot ← query_problems (λ p, bool_decide (isPredefined p = false));
     mret (mkReply 200 (ProblemList snapshot)))
    (λ error,
       console_log ("Error fetching regular problems: " +:+ error);;
       mret (mkReply 500 (ListingError "Failed to fetch regular problems"))).

(** The query of GET /problems: each of [req.query.chefId] and
    [req.query.assignedTechnician] adds a [where] when it is truthy. *)
Definition problems_query (q_chefId q_assignedTechnician : option string)
    : Problem → bool :=
  let query := λ _ : Problem, true in
  let query :=
    if truthy q_chefId
    then λ p, query p && bool_decide (chefId p = q_chefId)
    else query in
  let query :=
    if truthy q_assignedTechnician
    then λ p, query p && bool_decide (assignedTechnician p = q_assignedTechnician)
    else query in
  query.

(** GET /problems *)
Definition get_problems (q_chefId q_assignedTechnician : option string)
    : M Reply :=
  try_catch
    (problemsSnapshot ←
       query_problems (problems_query q_chefId q_assignedTechnician);
     mret (mkReply 200 (ProblemList problemsSnapshot)))
    (λ error,
       console_log ("Error fetching problems: " +:+ error);;
       mret (mkReply 500 (ListingError "Failed to fetch problems"))).

(** GET /problems/:id on a parameter that names the document
    [problemId] of the collection; [get_problems_id] below is the handler
    on any parameter and [route_get_problems] what the router makes of a
    path. *)
Definition get_problem_by_id (problemId : string) : M Reply :=
  try_catch
    (problemDoc ← Firestore.get_problem problemId;
     match problemDoc with
     | None => mret (mkReply 404 (ListingError "Problem not found"))
     | Some data => mret (mkReply 200 (ProblemDoc problemId data))
     end)
    (λ error,
       console_log ("Error fetching problem: " +:+ error);;
       mret (mkReply 500 (ListingError "Failed to fetch problem"))).

(** The ids listed by an answer. *)
Definition listed (r : Res Reply) : list (string * Problem) :=
  match value r with
  | Some (mkReply 200 (ProblemList docs)) => docs
  | _ => []
  end.

(** ** Document paths and the router *)

Module Path.

(** [s.split("/")] *)
Fixpoint split (s : string) : list string :=
  match s with
  | EmptyString => [""]
  | String c rest =>
      if Ascii.eqb c "/"%char then "" :: split rest
      else match split rest with
           | segment :: more => String c segment :: more
           | [] => [String c ""]
           end
  end.

(** The segments of a relative path: empty ones (a leading or trailing
    slash) are dropped. *)
Definition segments (s : string) : list string :=
  List.filter (λ segment, negb (bool_decide (segment = ""))) (split s).

(** [s.indexOf("//") >= 0] *)
Fixpoint has_double_slash (s : string) : bool :=
  match s with
  | String a (String b _ as rest) =>
      (Ascii.eqb a "/"%char && Ascii.eqb b "/"%char) || has_double_slash rest
  | _ => false
  end.

Fixpoint has_slash (s : string) : bool :=
  match s with
  | String c rest => Ascii.eqb c "/"%char || has_slash rest
  | EmptyString => false
  end.

(** [db.collection("problems").doc(documentPath)]: the path must be a
    non-empty string without "//", and together with the collection it
    must have an even number of segments.  The reference is given by
    its segments below the collection: one segment for a document of the
    collection itself, three or more for a document of a collection
    nested under it. *)
Definition doc (documentPath : string) : M (list string) := λ w,
  if bool_decide (documentPath = "")
  then Throw "Path must be a non-empty string." w
  else if has_double_slash documentPath
  then Throw "Paths must not contain //." w
  else if Nat.odd (length (segments documentPath))
  then Ok (segments documentPath) w
  else Throw "Your path does not contain an even number of components." w.

(** [ref.delete()].  The world holds the documents of the collection
    itself; the service never writes a nested one, so a reference to a
    nested document finds nothing to delete. *)
Definition delete (ref : list string) : M () :=
  match ref with
  | [id] => Firestore.delete_problem id
  | _ => mret ()
  end.

(** [ref.get()]: the id and the data of the document, when it exists. *)
Definition get (ref : list string) : M (option (string * Problem)) :=
  match ref with
  | [id] => λ w, Ok (pair id <$> problems w !! id) w
  | _ => mret None
  end.

(** [__.*__] *)
Definition reserved (id : string) : bool :=
  String.prefix "__" id && String.prefix "__" (String.rev id)
  && bool_decide (4 ≤ String.length id).

(** The ids Firestore accepts for a document: not empty, no slash, not
    "." or "..", not of the reserved form. *)
Definition document_id (id : string) : bool :=
  negb (bool_decide (id = ""))
  && negb (has_slash id)
  && negb (bool_decide (id = "."))
  && negb (bool_decide (id = ".."))
  && negb (reserved id).

Definition ascii_lower (c : ascii) : ascii :=
  let n := nat_of_ascii c in
  if bool_decide (65 ≤ n) && bool_decide (n ≤ 90)
  then ascii_of_nat (n + 32) else c.

Fixpoint lower (s : string) : string :=
  match s with
  | String c rest => String (ascii_lower c) (lower rest)
  | EmptyString => EmptyString
  end.

End Path.

(** DELETE /problems/:id, with [param] the value of [req.params.id] *)
Definition delete_problems_id (param : string) : M Response :=
  try_catch
    (ref ← Path.doc param;
     Path.delete ref;;
     mret (mkResponse 200 (Message "Problem deleted successfully")))
    (λ error,
       console_log ("Error deleting problem: " +:+ error);;
       mret (mkResponse 500 (ErrorBody "Failed to delete problem"))).

(** GET /problems/:id, with [param] the value of [req.params.id] *)
Definition get_problems_id (param : string) : M Reply :=
  try_catch
    (problemRef ← Path.doc param;
     problemDoc ← Path.get problemRef;
     match problemDoc with
     | None => mret (mkReply 404 (ListingError "Problem not found"))
     | Some (id, data) => mret (mkReply 200 (ProblemDoc id data))
     end)
    (λ error,
       console_log ("Error fetching problem: " +:+ error);;
       mret (mkReply 500 (ListingError "Failed to fetch problem"))).

(** What the router makes of GET /problems/<segment>, for a segment
    written without percent-escapes (so that [req.params.id] is the
    segment itself).  Routes are tried in the order they were
    registered, and the fixed paths match whatever the case of the
    letters: /problems/predefined, then /problems/regular, then
    /problems/:id. *)
Definition route_get_problems (segment : string) : M Reply :=
  if bool_decide (Path.lower segment = "predefined") then get_predefined
  else if bool_decide (Path.lower segment = "regular") then get_regular
  else get_problems_id segment.

(** ** Descriptions used by the statements below *)

(** What the loop of step 2 has found on a snapshot: nothing on the empty
    one, otherwise the first document of least workload. *)
Inductive selected (snapshot : list (string * User))
    : option string * Workload → Prop :=
| selected_none :
    snapshot = [] → selected snapshot (None, Infinity)
| selected_first_min before technicianId u after :
    snapshot = before ++ (technicianId, u) :: after →
    Forall (λ d, workload u < workload d.2) before →
    Forall (λ d, workload u ≤ workload d.2) after →
    selected snapshot (Some technicianId, Finite (workload u)).

(** The document inserted by step 3 of POST /problems. *)
Definition created_problem (env : Env) (req : ProblemBody)
    (assignee : option string) : Problem :=
  {| chefId := body_chefId req;
     description := js_or (body_description req) (body_title req);
     type := body_type req;
     status := "waiting";
     createdAt := server_time env;
     isPredefined := false;
     assignedTechnician := assignee;
     solvedAt := None |}.

(** The world once step 5 of POST /problems is over, whatever became of
    the email. *)
Definition after_email (env : Env) (req : ProblemBody) (to : option string)
    (w' : World) : World :=
  match to with
  | Some address =>
      if truthy to then
        if email_down env then
          mkWorld (users w') (problems w')
            (console w' ++ ["Email sending failed: connect ECONNREFUSED"])
            (outbox w')
        else
          mkWorld (users w') (problems w') (console w')
            (outbox w'
             ++ [NotifyEmail address "New Problem Assigned"
                   ("You have been assigned a new problem: "
                    +:+ js_template
                          (js_or (body_description req) (body_title req)))])
      else w'
  | None => w'
  end.

(** The world once PUT /problems/:id is done with the user-management
    service, for a problem whose [assignedTechnician] was [assignee]. *)
Definition after_peer (env : Env) (status : string) (assignee : option string)
    (w' : World) : World :=
  match assignee with
  | Some technicianId =>
      if bool_decide (status = "solved") && truthy assignee then
        match Firestore.lookup_doc technicianId (users w') with
        | Some _ =>
            if peer_down env then
              mkWorld (users w') (problems w')
                (console w'
                 ++ ["Error updating technician availability: connect ECONNREFUSED"])
                (outbox w')
            else
              mkWorld (users w') (problems w') (console w')
                (outbox w' ++ [PutAvailability technicianId true None])
        | None => w'
        end
      else w'
  | None => w'
  end.

(** The same surroundings with the collaborators switched on or off. *)
Definition with_email_down (down : bool) (env : Env) : Env :=
  {| gen_id := gen_id env; server_time := server_time env;
     email_down := down; peer_down := peer_down env |}.

Definition with_peer_down (down : bool) (env : Env) : Env :=
  {| gen_id := gen_id env; server_time := server_time env;
     email_down := email_down env; peer_down := down |}.

#[global] Instance Outbound_eq_dec : EqDecision Outbound.
Proof. solve_decision. Defined.

(** ** Sample data *)

Module Sample.

Definition technician (sp : string) (available : bool)
    (assigned : option (list string)) (address : option string) : User :=
  {| role := Some "technicien";
     speciality := Some sp;
     isAvailable := Some available;
     allProblems := assigned;
     currentProblem := None;
     lastAssigned := None;
     email := address |}.

(** T carries two problems, U none (the field is absent), V none (the
    array is empty), B two and is marked unavailable; E is the only
    electrician and is unavailable. *)
Definition staff : list (string * User) :=
  [("B", technician "plumbing" false (Some ["p7"; "p8"]) None);
   ("T", technician "plumbing" true (Some ["p5"; "p6"]) (Some "t@example.org"));
   ("U", technician "plumbing" true None (Some "u@example.org"));
   ("V", technician "plumbing" true (Some []) None);
   ("E", technician "electrical" false None None)].

Definition world : World :=
  {| users := staff; problems := ∅; console := []; outbox := [] |}.

Definition env : Env :=
  {| gen_id := "p9"; server_time := 1000; email_down := false; peer_down := false |}.

Definition env_offline : Env :=
  {| gen_id := "p9"; server_time := 1000; email_down := true; peer_down := true |}.

Definition later : Env :=
  {| gen_id := "p10"; server_time := 2000; email_down := false; peer_down := false |}.

Definition leak : ProblemBody :=
  {| body_chefId := Some "chef1";
     body_title := Some "Leak";
     body_description := Some "Leak under the sink";
     body_type := "plumbing" |}.

Definition outage : ProblemBody :=
  {| body_chefId := Some "chef1";
     body_title := Some "Outage";
     body_description := None;
     body_type := "electrical" |}.

End Sample.

(** * Properties *)

(** ** Selection of the least loaded technician *)

Section Selection.

Lemma select_technician_snoc snapshot doc :
  select_technician (snapshot ++ [doc])
  = select_step (select_technician snapshot) doc.
Proof. unfold select_technician. by rewrite fold_left_app. Qed.

Lemma selected_step snapshot acc doc :
  selected snapshot acc → selected (snapshot ++ [doc]) (select_step acc doc).
Proof.
  destruct doc as [k u'].
  intros [-> | before technicianId u after -> Hbefore Hafter];
    unfold select_step; simpl.
  - apply (selected_first_min [(k, u')] [] k u' []); by constructor.
  - case_bool_decide as Hlt.
    + apply (selected_first_min _ (before ++ (technicianId, u) :: after) k u' []).
      * done.
      * rewrite Forall_app, Forall_cons. simpl. repeat split; [| lia |].
        -- eapply Forall_impl; [exact Hbefore |]. simpl. intros; lia.
        -- eapply Forall_impl; [exact Hafter |]. simpl. intros; lia.
      * constructor.
    + apply (selected_first_min _ before technicianId u (after ++ [(k, u')])).
      * by rewrite <- app_assoc.
      * done.
      * rewrite Forall_app, Forall_singleton. simpl. split; [done | lia].
Qed.

Lemma select_technician_selected snapshot :
  selected snapshot (select_technician snapshot).
Proof.
  induction snapshot as [| doc snapshot IH] using rev_ind.
  - by constructor.
  - rewrite select_technician_snoc. by apply selected_step.
Qed.

Lemma select_technician_none snapshot minWorkload :
  select_technician snapshot = (None, minWorkload) →
  snapshot = [] ∧ minWorkload = Infinity.
Proof.
  intros Hsel. pose proof (select_technician_selected snapshot) as H.
  rewrite Hsel in H. by inversion H.
Qed.

Lemma select_technician_some snapshot :
  snapshot ≠ [] →
  ∃ before technicianId u after,
    snapshot = before ++ (technicianId, u) :: after
    ∧ Forall (λ d, workload u < workload d.2) before
    ∧ Forall (λ d, workload u ≤ workload d.2) after
    ∧ select_technician snapshot = (Some technicianId, Finite (workload u)).
Proof.
  intros Hne. pose proof (select_technician_selected snapshot) as H.
  inversion H as [Hnil | before technicianId u after Hsnap Hb Ha Heq];
    [done |].
  by exists before, technicianId, u, after.
Qed.

End Selection.

(** ** Documents of the [users] collection *)

Section Documents.

Implicit Types (docs : list (string * User)) (id : string) (u : User).

Lemma lookup_doc_Some docs id u :
  Firestore.lookup_doc id docs = Some u → (id, u) ∈ docs.
Proof.
  induction docs as [| [k v] docs IH]; simpl; [done |].
  case_bool_decide as Hk.
  - intros [= ->]. subst. left.
  - intros H. right. by apply IH.
Qed.

Lemma lookup_doc_is_Some docs id u :
  (id, u) ∈ docs → is_Some (Firestore.lookup_doc id docs).
Proof.
  induction docs as [| [k v] docs IH]; simpl.
  - by intros ?%elem_of_nil.
  - intros [[= <- <-] | Hin]%elem_of_cons.
    + rewrite bool_decide_eq_true_2; eauto.
    + case_bool_decide; eauto.
Qed.

(** With distinct ids, the document found by id is the one iterated. *)
Lemma lookup_doc_NoDup docs id u :
  NoDup docs.*1 → (id, u) ∈ docs → Firestore.lookup_doc id docs = Some u.
Proof.
  induction docs as [| [k v] docs IH]; simpl.
  - by intros _ ?%elem_of_nil.
  - intros [Hk Hnd]%NoDup_cons [[= <- <-] | Hin]%elem_of_cons.
    + by rewrite bool_decide_eq_true_2.
    + case_bool_decide as Heq; [| by apply IH].
      subst k. exfalso. apply Hk.
      apply list_elem_of_fmap. by exists (id, u).
Qed.

Lemma lookup_update_doc_eq docs id f u :
  Firestore.lookup_doc id docs = Some u →
  Firestore.lookup_doc id (Firestore.update_doc id f docs) = Some (f u).
Proof.
  induction docs as [| [k v] docs IH]; simpl; [done |].
  case_bool_decide as Hk; simpl.
  - intros [= ->]. by rewrite bool_decide_eq_true_2.
  - intros H. rewrite bool_decide_eq_false_2 by done. by apply IH.
Qed.

Lemma lookup_update_doc_ne docs id id' f :
  id ≠ id' →
  Firestore.lookup_doc id' (Firestore.update_doc id f docs)
  = Firestore.lookup_doc id' docs.
Proof.
  intros Hne. induction docs as [| [k v] docs IH]; simpl; [done |].
  case_bool_decide as Hk; simpl.
  - subst k. by rewrite bool_decide_eq_false_2.
  - by rewrite IH.
Qed.

Lemma update_doc_ids docs id f :
  (Firestore.update_doc id f docs).*1 = docs.*1.
Proof.
  induction docs as [| [k v] docs IH]; [done |].
  simpl. destruct (bool_decide (k = id)); csimpl; [done |].
  by rewrite IH.
Qed.

Lemma elem_of_filter_docs (p : User → bool) docs id u :
  (id, u) ∈ List.filter (λ d, p d.2) docs → (id, u) ∈ docs ∧ p u = true.
Proof.
  rewrite !list_elem_of_In, filter_In. by intros [? ?].
Qed.

End Documents.

(** ** Running POST /problems *)

Section PostProblems.

Variables (env : Env) (req : ProblemBody) (w : World).

Hypothesis fresh : problems w !! gen_id env = None.

Lemma post_problems_unassigned minWorkload :
  select_technician
    (List.filter (λ d, qualified (body_type req) d.2) (users w))
  = (None, minWorkload) →
  post_problems env req w
  = Ok (mkResponse 201
          (ProblemCreated (gen_id env) "no available technician"
             (workload_field minWorkload) "No available technicians found"))
       (mkWorld (users w)
          (<[gen_id env := created_problem env req None]> (problems w))
          (console w) (outbox w)).
Proof.
  intros Hsel.
  unfold post_problems, try_catch, mbind, M_bind, Firestore.query_users,
    Firestore.add_problem.
  cbn. by rewrite Hsel, fresh.
Qed.

Lemma post_problems_assigned technicianId minWorkload techData :
  select_technician
    (List.filter (λ d, qualified (body_type req) d.2) (users w))
  = (Some technicianId, minWorkload) →
  technicianId ≠ "" →
  Firestore.lookup_doc technicianId (users w) = Some techData →
  post_problems env req w
  = Ok (mkResponse 201
          (ProblemCreated (gen_id env) technicianId
             (workload_field minWorkload)
             ("Assigned to technician with "
              +:+ workload_text minWorkload +:+ " existing problems")))
       (after_email env req (email techData)
          (mkWorld
             (Firestore.update_doc technicianId
                (assignment_updates (gen_id env) (server_time env)
                   (Some techData))
                (users w))
             (<[gen_id env := created_problem env req (Some technicianId)]> (problems w))
             (console w) (outbox w))).
Proof.
  intros Hsel Hid Hdoc.
  unfold post_problems, try_catch, mbind, M_bind, mret, M_ret, when,
    Firestore.query_users, Firestore.add_problem, Firestore.get_user,
    Firestore.update_user, axios, console_log, after_email.
  cbn. rewrite Hsel, fresh. cbn.
  rewrite bool_decide_eq_false_2 by done. cbn. rewrite Hdoc. cbn.
  destruct (email techData) as [address |]; cbn; [| done].
  destruct (negb (bool_decide (address = ""))); [| done].
  by destruct (email_down env).
Qed.

Lemma users_after_email to w' :
  users (after_email env req to w') = users w'.
Proof.
  unfold after_email. destruct to; [| done].
  destruct (truthy _); [| done]. by destruct (email_down env).
Qed.

Lemma problems_after_email to w' :
  problems (after_email env req to w') = problems w'.
Proof.
  unfold after_email. destruct to; [| done].
  destruct (truthy _); [| done]. by destruct (email_down env).
Qed.

End PostProblems.

(** The technician found by the loop is a stored user. *)
Lemma selected_is_stored (req : ProblemBody) (w : World) technicianId minWorkload :
  select_technician
    (List.filter (λ d, qualified (body_type req) d.2) (users w))
  = (Some technicianId, minWorkload) →
  is_Some (Firestore.lookup_doc technicianId (users w)).
Proof.
  intros Hsel.
  pose proof (select_technician_selected
                (List.filter (λ d, qualified (body_type req) d.2) (users w))) as H.
  rewrite Hsel in H.
  inversion H as [| before id u after Hsnap _ _].
  apply (lookup_doc_is_Some _ _ u).
  apply (elem_of_filter_docs (qualified (body_type req))).
  rewrite Hsnap. set_solver.
Qed.

Section PostProblemsOutcome.

Variables (env : Env) (req : ProblemBody) (w : World).

Hypothesis fresh : problems w !! gen_id env = None.

(** An id that cannot be a document id: step 4 is skipped altogether. *)
Lemma post_problems_falsy_id minWorkload :
  select_technician
    (List.filter (λ d, qualified (body_type req) d.2) (users w))
  = (Some "", minWorkload) →
  post_problems env req w
  = Ok (mkResponse 201
          (ProblemCreated (gen_id env) "no available technician"
             (workload_field minWorkload) "No available technicians found"))
       (mkWorld (users w)
          (<[gen_id env := created_problem env req (Some "")]> (problems w))
          (console w) (outbox w)).
Proof.
  intros Hsel.
  unfold post_problems, try_catch, mbind, M_bind, Firestore.query_users,
    Firestore.add_problem.
  cbn. by rewrite Hsel, fresh.
Qed.

(** The request is answered with 201 and the new problem carries
    whatever the loop selected. *)
Lemma post_problems_created :
  ∃ assignedTo message w',
    post_problems env req w
    = Ok (mkResponse 201
            (ProblemCreated (gen_id env) assignedTo
               (workload_field
                  (select_technician
                     (List.filter (λ d, qualified (body_type req) d.2)
                        (users w))).2)
               message)) w'
    ∧ problems w' !! gen_id env
      = Some (created_problem env req
                (select_technician
                   (List.filter (λ d, qualified (body_type req) d.2)
                      (users w))).1).
Proof.
  destruct (select_technician
              (List.filter (λ d, qualified (body_type req) d.2) (users w)))
    as [[technicianId |] minWorkload] eqn:Hsel.
  - destruct (decide (technicianId = "")) as [-> | Hid].
    + rewrite (post_problems_falsy_id minWorkload Hsel).
      do 3 eexists. split; [done |]. simpl. apply lookup_insert_eq.
    + destruct (selected_is_stored req w _ _ Hsel) as [techData Hdoc].
      rewrite (post_problems_assigned env req w fresh _ _ _ Hsel Hid Hdoc).
      do 3 eexists. split; [done |].
      rewrite problems_after_email. simpl. apply lookup_insert_eq.
  - rewrite (post_problems_unassigned env req w fresh _ Hsel).
    do 3 eexists. split; [done |]. simpl. apply lookup_insert_eq.
Qed.

End PostProblemsOutcome.

Lemma filter_none {A} (p : A → bool) (l : list A) :
  (∀ x, x ∈ l → p x = false) → List.filter p l = [].
Proof.
  induction l as [| x l IH]; simpl; [done |].
  intros H. rewrite (H x) by left. apply IH. intros y Hy. apply H. by right.
Qed.

(** ** Claims about POST /problems *)

Lemma workload_length (u : User) :
  workload u = length (default [] (allProblems u)).
Proof. unfold workload. by destruct (allProblems u). Qed.

(** C1. When the query of step 1 returns at least one technician, the
    problem stored by POST /problems is assigned to the first technician
    of the snapshot whose workload is least, the workload of a
    technician being the length of [allProblems], 0 when the field is
    absent: every technician before the assigned one carries strictly
    more problems, every technician after it at least as many.  The
    response reports that least length as [currentWorkload]. *)
Theorem post_problems_assigns_least_loaded (env : Env) (req : ProblemBody)
    (w : World) :
  List.filter (λ d, qualified (body_type req) d.2) (users w) ≠ [] →
  problems w !! gen_id env = None →
  ∃ before technicianId u after assignedTo message,
    List.filter (λ d, qualified (body_type req) d.2) (users w)
    = before ++ (technicianId, u) :: after
    ∧ Forall (λ d, length (default [] (allProblems u))
                   < length (default [] (allProblems d.2))) before
    ∧ Forall (λ d, length (default [] (allProblems u))
                   ≤ length (default [] (allProblems d.2))) after
    ∧ value (post_problems env req w)
      = Some (mkResponse 201
                (ProblemCreated (gen_id env) assignedTo
                   (inl (length (default [] (allProblems u)))) message))
    ∧ (assignedTechnician
         <$> problems (final (post_problems env req w)) !! gen_id env)
      = Some (Some technicianId)
    ∧ (technicianId ≠ "" → assignedTo = technicianId).
Proof.
  intros Hne Hfresh.
  destruct (select_technician_some _ Hne)
    as (before & technicianId & u & after & Hsnap & Hb & Ha & Hsel).
  exists before, technicianId, u, after.
  assert (Forall (λ d, length (default [] (allProblems u))
                       < length (default [] (allProblems d.2))) before) as Hb'.
  { eapply Forall_impl; [exact Hb |]. intros d. by rewrite !workload_length. }
  assert (Forall (λ d, length (default [] (allProblems u))
                       ≤ length (default [] (allProblems d.2))) after) as Ha'.
  { eapply Forall_impl; [exact Ha |]. intros d. by rewrite !workload_length. }
  destruct (decide (technicianId = "")) as [-> | Hid].
  - rewrite (post_problems_falsy_id env req w Hfresh _ Hsel).
    do 2 eexists. cbn [value final problems]. rewrite lookup_insert_eq.
    cbn [workload_field]. rewrite workload_length. by split_and!.
  - destruct (selected_is_stored req w _ _ Hsel) as [techData Hdoc].
    rewrite (post_problems_assigned env req w Hfresh _ _ _ Hsel Hid Hdoc).
    do 2 eexists. cbn [value final]. rewrite problems_after_email.
    cbn [problems]. rewrite lookup_insert_eq.
    cbn [workload_field]. rewrite workload_length. by split_and!.
Qed.

Lemma post_problems_assigns_least_loaded_witness :
  ∃ before technicianId u after assignedTo message,
    List.filter (λ d, qualified "plumbing" d.2) Sample.staff
    = before ++ (technicianId, u) :: after
    ∧ Forall (λ d, length (default [] (allProblems u))
                   < length (default [] (allProblems d.2))) before
    ∧ Forall (λ d, length (default [] (allProblems u))
                   ≤ length (default [] (allProblems d.2))) after
    ∧ value (post_problems Sample.env Sample.leak Sample.world)
      = Some (mkResponse 201
                (ProblemCreated "p9" assignedTo
                   (inl (length (default [] (allProblems u)))) message))
    ∧ (assignedTechnician
         <$> problems (final (post_problems Sample.env Sample.leak Sample.world))
               !! "p9")
      = Some (Some technicianId)
    ∧ (technicianId ≠ "" → assignedTo = technicianId).
Proof.
  apply (post_problems_assigns_least_loaded Sample.env Sample.leak Sample.world).
  - vm_compute. discriminate.
  - vm_compute. reflexivity.
Defined.

(** The scenario of the specification: T has two problems, U has none,
    both are available plumbers; the new plumbing problem goes to U and
    the reported workload is 0.  V ties with U and comes later. *)
Example post_problems_scenario :
  value (post_problems Sample.env Sample.leak Sample.world)
  = Some (mkResponse 201
            (ProblemCreated "p9" "U" (inl 0)
               "Assigned to technician with 0 existing problems"))
  ∧ (assignedTechnician
       <$> problems (final (post_problems Sample.env Sample.leak Sample.world)) !! "p9")
    = Some (Some "U").
Proof. split; vm_compute; reflexivity. Qed.

(** C2. When POST /problems has assigned the new problem to a technician
    (a stored user whose id is a document id, hence not empty) and the
    generated problem id is new to that technician's [allProblems], the
    technician's document gains the id, its workload grows by exactly
    one, [currentProblem] is the new id, [lastAssigned] is the server
    time, and [isAvailable] is false exactly when the new workload is 3
    or more.  The other fields of the document are kept. *)
Theorem post_problems_updates_technician (env : Env) (req : ProblemBody)
    (w : World) (technicianId : string) (u : User) :
  problems w !! gen_id env = None →
  (assignedTechnician
     <$> problems (final (post_problems env req w)) !! gen_id env)
  = Some (Some technicianId) →
  technicianId ≠ "" →
  Firestore.lookup_doc technicianId (users w) = Some u →
  gen_id env ∉ default [] (allProblems u) →
  ∃ u',
    Firestore.lookup_doc technicianId (users (final (post_problems env req w)))
    = Some u'
    ∧ allProblems u' = Some (default [] (allProblems u) ++ [gen_id env])
    ∧ workload u' = workload u + 1
    ∧ currentProblem u' = Some (gen_id env)
    ∧ lastAssigned u' = Some (server_time env)
    ∧ isAvailable u' = Some (bool_decide (workload u' < 3))
    ∧ (isAvailable u' = Some false ↔ 3 ≤ workload u')
    ∧ role u' = role u ∧ speciality u' = speciality u ∧ email u' = email u.
Proof.
  intros Hfresh Hassigned Hid Hdoc Hnew.
  destruct (post_problems_created env req w Hfresh)
    as (assignedTo & message & w' & Hrun & Hstored).
  rewrite Hrun in Hassigned. simpl in Hassigned.
  rewrite Hstored in Hassigned. simpl in Hassigned.
  destruct (select_technician _) as [assignee minWorkload] eqn:Hsel.
  simpl in Hassigned. injection Hassigned as ->.
  rewrite (post_problems_assigned env req w Hfresh _ _ _ Hsel Hid Hdoc).
  simpl. rewrite users_after_email. simpl.
  eexists. split; [by apply lookup_update_doc_eq |].
  assert (Firestore.arrayUnion (gen_id env) (allProblems u)
          = default [] (allProblems u) ++ [gen_id env]) as Hunion.
  { unfold Firestore.arrayUnion. destruct (allProblems u) as [l |]; [| done].
    simpl in *. by rewrite bool_decide_eq_false_2. }
  assert (workload
            (assignment_updates (gen_id env) (server_time env) (Some u) u)
          = workload u + 1) as Hload.
  { unfold workload at 1. simpl. rewrite Hunion, length_app. simpl.
    unfold workload. by destruct (allProblems u). }
  rewrite Hload. simpl. rewrite Hunion.
  repeat split; try done.
  - intros [= H]. apply bool_decide_eq_false in H. lia.
  - intros H. f_equal. apply bool_decide_eq_false. lia.
Qed.

Lemma post_problems_updates_technician_witness :
  ∃ u',
    Firestore.lookup_doc "U"
      (users (final (post_problems Sample.env Sample.leak Sample.world)))
    = Some u'
    ∧ allProblems u' = Some ([] ++ ["p9"])
    ∧ workload u' = 0 + 1
    ∧ currentProblem u' = Some "p9"
    ∧ lastAssigned u' = Some 1000%Z
    ∧ isAvailable u' = Some (bool_decide (workload u' < 3))
    ∧ (isAvailable u' = Some false ↔ 3 ≤ workload u')
    ∧ role u' = Some "technicien" ∧ speciality u' = Some "plumbing"
    ∧ email u' = Some "u@example.org".
Proof.
  apply (post_problems_updates_technician Sample.env Sample.leak Sample.world
           "U" (Sample.technician "plumbing" true None (Some "u@example.org"))).
  - vm_compute. reflexivity.
  - vm_compute. reflexivity.
  - discriminate.
  - vm_compute. reflexivity.
  - simpl. apply not_elem_of_nil.
Defined.

(** A technician with two problems takes a third and becomes unavailable. *)
Example post_problems_third_problem :
  let w := mkWorld [("T", Sample.technician "plumbing" true
                            (Some ["p5"; "p6"]) None)] ∅ [] [] in
  Firestore.lookup_doc "T" (users (final (post_problems Sample.env Sample.leak w)))
  = Some {| role := Some "technicien";
            speciality := Some "plumbing";
            isAvailable := Some false;
            allProblems := Some ["p5"; "p6"; "p9"];
            currentProblem := Some "p9";
            lastAssigned := Some 1000%Z;
            email := None |}.
Proof. vm_compute. reflexivity. Qed.

(** C3. When no stored user passes the query of step 1, POST /problems
    still answers 201: the problem is stored with no assigned technician
    and status "waiting", the response names the sentinel
    "no available technician" and says that no technician was found, and
    nothing else in the world changes. *)
Theorem post_problems_without_technician (env : Env) (req : ProblemBody)
    (w : World) :
  (∀ id u, (id, u) ∈ users w → qualified (body_type req) u = false) →
  problems w !! gen_id env = None →
  ∃ w',
    post_problems env req w
    = Ok (mkResponse 201
            (ProblemCreated (gen_id env) "no available technician"
               (inr "N/A") "No available technicians found")) w'
    ∧ (∃ p, problems w' !! gen_id env = Some p
            ∧ assignedTechnician p = None
            ∧ status p = "waiting"
            ∧ isPredefined p = false)
    ∧ (∀ id, id ≠ gen_id env → problems w' !! id = problems w !! id)
    ∧ users w' = users w
    ∧ console w' = console w
    ∧ outbox w' = outbox w.
Proof.
  intros Hnone Hfresh.
  assert (List.filter (λ d, qualified (body_type req) d.2) (users w) = [])
    as Hempty.
  { apply filter_none. intros [id u] Hin. by apply (Hnone id u). }
  eexists. split.
  - apply (post_problems_unassigned env req w Hfresh Infinity).
    by rewrite Hempty.
  - simpl. repeat split; try done.
    + eexists. split; [apply lookup_insert_eq | done].
    + intros id Hid. by apply lookup_insert_ne.
Qed.

Lemma post_problems_without_technician_witness :
  ∃ w',
    post_problems Sample.env Sample.outage Sample.world
    = Ok (mkResponse 201
            (ProblemCreated "p9" "no available technician"
               (inr "N/A") "No available technicians found")) w'
    ∧ (∃ p, problems w' !! "p9" = Some p
            ∧ assignedTechnician p = None
            ∧ status p = "waiting"
            ∧ isPredefined p = false)
    ∧ (∀ id, id ≠ "p9" → problems w' !! id = problems Sample.world !! id)
    ∧ users w' = Sample.staff
    ∧ console w' = []
    ∧ outbox w' = [].
Proof.
  apply (post_problems_without_technician Sample.env Sample.outage Sample.world).
  - intros id u Hin. simpl in Hin.
    repeat (apply elem_of_cons in Hin as [[= -> ->] | Hin];
            [vm_compute; reflexivity |]).
    by apply elem_of_nil in Hin.
  - vm_compute. reflexivity.
Defined.

(** ** Running the other handlers *)

Section PutProblem.

Variables (env : Env) (problemId status : string) (w : World).

Lemma put_problem_found p :
  problems w !! problemId = Some p →
  put_problem env problemId status w
  = Ok (mkResponse 200
          (StatusUpdated "Problem status updated successfully"
             (bool_decide (status = "solved") && truthy (assignedTechnician p))))
       (after_peer env status (assignedTechnician p)
          (mkWorld (users w)
             (<[problemId := status_update status (server_time env) p]>
                (problems w))
             (console w) (outbox w))).
Proof.
  intros Hp.
  unfold put_problem, try_catch, mbind, M_bind, mret, M_ret, when,
    Firestore.get_problem, Firestore.update_problem, Firestore.get_user,
    axios, console_log, after_peer.
  cbn. rewrite Hp. cbn.
  destruct (assignedTechnician p) as [technicianId |]; cbn; [| done].
  destruct (bool_decide (status = "solved")); cbn; [| done].
  destruct (negb (bool_decide (technicianId = ""))); cbn; [| done].
  destruct (Firestore.lookup_doc technicianId (users w)); cbn; [| done].
  by destruct (peer_down env).
Qed.

Lemma put_problem_missing :
  problems w !! problemId = None →
  put_problem env problemId status w
  = Ok (mkResponse 500 (ErrorBody "Failed to update problem"))
       (mkWorld (users w) (problems w)
          (console w ++ ["Error updating problem: NOT_FOUND"]) (outbox w)).
Proof.
  intros Hp.
  unfold put_problem, try_catch, mbind, M_bind, mret, M_ret,
    Firestore.get_problem, Firestore.update_problem, console_log.
  cbn. by rewrite Hp.
Qed.

Lemma users_after_peer assignee w' :
  users (after_peer env status assignee w') = users w'.
Proof.
  unfold after_peer. destruct assignee; [| done].
  destruct (_ && _); [| done].
  destruct (Firestore.lookup_doc _ _); [| done]. by destruct (peer_down env).
Qed.

Lemma problems_after_peer assignee w' :
  problems (after_peer env status assignee w') = problems w'.
Proof.
  unfold after_peer. destruct assignee; [| done].
  destruct (_ && _); [| done].
  destruct (Firestore.lookup_doc _ _); [| done]. by destruct (peer_down env).
Qed.

End PutProblem.

Lemma post_problems_collision env req w p :
  problems w !! gen_id env = Some p →
  post_problems env req w
  = Ok (mkResponse 500 (ErrorBody "Failed to create problem"))
       (mkWorld (users w) (problems w)
          (console w ++ ["Error creating problem: ALREADY_EXISTS"]) (outbox w)).
Proof.
  intros Hp.
  unfold post_problems, try_catch, mbind, M_bind, mret, M_ret,
    Firestore.query_users, Firestore.add_problem, console_log.
  cbn. destruct (select_technician _) as [assignee minWorkload].
  by rewrite Hp.
Qed.

(** POST /problems never touches a problem that is already stored. *)
Lemma post_problems_keeps_problems env req w id p :
  problems w !! id = Some p →
  problems (final (post_problems env req w)) !! id = Some p.
Proof.
  intros Hp.
  destruct (problems w !! gen_id env) as [q |] eqn:Hgen.
  - by rewrite (post_problems_collision env req w q Hgen).
  - assert (id ≠ gen_id env) as Hid by congruence.
    destruct (select_technician
                (List.filter (λ d, qualified (body_type req) d.2) (users w)))
      as [[technicianId |] minWorkload] eqn:Hsel.
    + destruct (decide (technicianId = "")) as [-> | Hne].
      * rewrite (post_problems_falsy_id env req w Hgen minWorkload Hsel).
        simpl. by rewrite lookup_insert_ne.
      * destruct (selected_is_stored req w _ _ Hsel) as [techData Hdoc].
        rewrite (post_problems_assigned env req w Hgen _ _ _ Hsel Hne Hdoc).
        simpl. rewrite problems_after_email. simpl.
        by rewrite lookup_insert_ne.
    + rewrite (post_problems_unassigned env req w Hgen _ Hsel).
      simpl. by rewrite lookup_insert_ne.
Qed.

Lemma post_predefined_fresh env req w :
  problems w !! gen_id env = None →
  post_predefined env req w
  = Ok (mkResponse 201
          (PredefinedCreated (gen_id env)
             "Predefined problem created successfully" None "waiting"))
       (mkWorld (users w)
          (<[gen_id env :=
               {| chefId := Some "system";
                  description := js_or (body_description req) (body_title req);
                  type := body_type req;
                  status := "waiting";
                  createdAt := server_time env;
                  isPredefined := true;
                  assignedTechnician := None;
                  solvedAt := None |}]> (problems w))
          (console w) (outbox w)).
Proof.
  intros Hfresh.
  unfold post_predefined, try_catch, mbind, M_bind, Firestore.add_problem.
  cbn. by rewrite Hfresh.
Qed.

Lemma trigger_skips_predefined problemId p w :
  isPredefined p = true →
  assignTechnicianToProblem problemId (Some p) w
  = Ok () (mkWorld (users w) (problems w)
             (console w
              ++ ["Skipping technician assignment for predefined problem"])
             (outbox w)).
Proof. intros Hp. unfold assignTechnicianToProblem. by rewrite Hp. Qed.

(** ** Claims about predefined problems and the trigger *)

(** C4. A problem created through POST /problems/predefined is stored
    with [isPredefined = true], no assigned technician and status
    "waiting", and the response says so.  The trigger fired by that
    creation leaves the store as it is; so does the trigger on any
    predefined problem; and POST /problems never changes a predefined
    problem that is already stored. *)
Theorem predefined_never_assigned (env : Env) (req : ProblemBody) (w : World) :
  problems w !! gen_id env = None →
  let r := post_predefined env req w in
  value r
  = Some (mkResponse 201
            (PredefinedCreated (gen_id env)
               "Predefined problem created successfully" None "waiting"))
  ∧ (∃ p, problems (final r) !! gen_id env = Some p
          ∧ isPredefined p = true
          ∧ assignedTechnician p = None
          ∧ status p = "waiting")
  ∧ problems
      (final (assignTechnicianToProblem (gen_id env)
                (problems (final r) !! gen_id env) (final r)))
    = problems (final r)
  ∧ (∀ problemId p w',
       isPredefined p = true →
       problems (final (assignTechnicianToProblem problemId (Some p) w'))
       = problems w'
       ∧ users (final (assignTechnicianToProblem problemId (Some p) w'))
         = users w')
  ∧ (∀ env' req' w' id p,
       problems w' !! id = Some p →
       isPredefined p = true →
       problems (final (post_problems env' req' w')) !! id = Some p).
Proof.
  intros Hfresh r. subst r.
  rewrite (post_predefined_fresh env req w Hfresh).
  cbn [final value problems]. rewrite lookup_insert_eq.
  split_and!.
  - done.
  - eexists. by split.
  - by rewrite trigger_skips_predefined.
  - intros problemId p w' Hp. by rewrite trigger_skips_predefined.
  - intros env' req' w' id p Hp _. by apply post_problems_keeps_problems.
Qed.

Lemma predefined_never_assigned_witness :
  let r := post_predefined Sample.env Sample.leak Sample.world in
  value r
  = Some (mkResponse 201
            (PredefinedCreated "p9"
               "Predefined problem created successfully" None "waiting"))
  ∧ (∃ p, problems (final r) !! "p9" = Some p
          ∧ isPredefined p = true
          ∧ assignedTechnician p = None
          ∧ status p = "waiting")
  ∧ problems
      (final (assignTechnicianToProblem "p9" (problems (final r) !! "p9") (final r)))
    = problems (final r)
  ∧ (∀ problemId p w',
       isPredefined p = true →
       problems (final (assignTechnicianToProblem problemId (Some p) w'))
       = problems w'
       ∧ users (final (assignTechnicianToProblem problemId (Some p) w'))
         = users w')
  ∧ (∀ env' req' w' id p,
       problems w' !! id = Some p →
       isPredefined p = true →
       problems (final (post_problems env' req' w')) !! id = Some p).
Proof.
  apply (predefined_never_assigned Sample.env Sample.leak Sample.world).
  vm_compute. reflexivity.
Defined.

(** The trigger on a problem that is not predefined: the first stored
    user with role "technicien" and the problem's type as speciality is
    written to [assignedTechnician]. *)
Lemma trigger_regular problemId p q w :
  isPredefined p = false →
  problems w !! problemId = Some q →
  assignTechnicianToProblem problemId (Some p) w
  = match List.filter (λ d, matching (type p) d.2) (users w) with
    | [] =>
        Ok () (mkWorld (users w) (problems w)
                 (console w
                  ++ ["No technician found for problem type: " +:+ type p])
                 (outbox w))
    | doc :: _ =>
        Ok () (mkWorld (users w)
                 (<[problemId := set_assignedTechnician doc.1 q]> (problems w))
                 (console w
                  ++ ["Assigned technician " +:+ doc.1
                      +:+ " to problem " +:+ problemId])
                 (outbox w))
    end.
Proof.
  intros Hp Hq.
  unfold assignTechnicianToProblem, try_catch, mbind, M_bind,
    Firestore.query_users, Firestore.limit, Firestore.update_problem,
    console_log.
  rewrite Hp. cbn.
  destruct (List.filter _ (users w)) as [| doc rest]; cbn; [done |].
  by rewrite Hq.
Qed.

(** C5, as the code has it.  For every created problem that is not
    predefined, whether or not it already has an assignee, the trigger
    looks for the first stored user with role "technicien" whose
    speciality is the problem's type (availability and workload are not
    consulted) and overwrites [assignedTechnician] with that user's id;
    when there is no such user, or the problem is predefined,
    [assignedTechnician] stays what it was.  Every other field of the
    problem, every other problem and every user is left as it was. *)
Theorem trigger_assigns_first_match (problemId : string) (p q : Problem)
    (w : World) :
  problems w !! problemId = Some q →
  let w' := final (assignTechnicianToProblem problemId (Some p) w) in
  users w' = users w
  ∧ (∀ other, other ≠ problemId → problems w' !! other = problems w !! other)
  ∧ ∃ q',
      problems w' !! problemId = Some q'
      ∧ assignedTechnician q'
        = (if isPredefined p then assignedTechnician q
           else match List.filter
                        (λ d, bool_decide (role d.2 = Some "technicien")
                              && bool_decide (speciality d.2 = Some (type p)))
                        (users w) with
                | [] => assignedTechnician q
                | doc :: _ => Some doc.1
                end)
      ∧ chefId q' = chefId q
      ∧ description q' = description q
      ∧ type q' = type q
      ∧ status q' = status q
      ∧ createdAt q' = createdAt q
      ∧ isPredefined q' = isPredefined q
      ∧ solvedAt q' = solvedAt q.
Proof.
  intros Hq w'. subst w'.
  destruct (isPredefined p) eqn:Hp.
  - rewrite (trigger_skips_predefined problemId p w Hp). cbn [final users problems].
    split_and!; [done | done |]. exists q. by split_and!.
  - rewrite (trigger_regular problemId p q w Hp Hq).
    change (λ d : string * User,
              bool_decide (role d.2 = Some "technicien")
              && bool_decide (speciality d.2 = Some (type p)))
      with (λ d : string * User, matching (type p) d.2).
    destruct (List.filter _ (users w)) as [| doc rest]; cbn [final users problems].
    + split_and!; [done | done |]. exists q. by split_and!.
    + split_and!; [done | |].
      * intros other Hother. by apply lookup_insert_ne.
      * eexists. split; [apply lookup_insert_eq |]. by split_and!.
Qed.

Lemma trigger_assigns_first_match_witness :
  let w1 := final (post_problems Sample.env Sample.leak Sample.world) in
  let w' :=
    final (assignTechnicianToProblem "p9"
             (Some (created_problem Sample.env Sample.leak (Some "U"))) w1) in
  users w' = users w1
  ∧ (∀ other, other ≠ "p9" → problems w' !! other = problems w1 !! other)
  ∧ ∃ q',
      problems w' !! "p9" = Some q'
      ∧ assignedTechnician q' = Some "B"
      ∧ chefId q' = Some "chef1"
      ∧ description q' = Some "Leak under the sink"
      ∧ type q' = "plumbing"
      ∧ status q' = "waiting"
      ∧ createdAt q' = 1000%Z
      ∧ isPredefined q' = false
      ∧ solvedAt q' = None.
Proof.
  apply (trigger_assigns_first_match "p9"
           (created_problem Sample.env Sample.leak (Some "U"))
           (created_problem Sample.env Sample.leak (Some "U"))
           (final (post_problems Sample.env Sample.leak Sample.world))).
  vm_compute. reflexivity.
Defined.

(** C5 as stated fails: the problem that POST /problems has just assigned
    to U, the least loaded available plumber, is handed by the trigger to
    B, the first plumber of the collection, who is unavailable. *)
Lemma trigger_overwrites_assignee :
  let w1 := final (post_problems Sample.env Sample.leak Sample.world) in
  let w2 := final (assignTechnicianToProblem "p9" (problems w1 !! "p9") w1) in
  (assignedTechnician <$> problems w1 !! "p9") = Some (Some "U")
  ∧ (assignedTechnician <$> problems w2 !! "p9") = Some (Some "B")
  ∧ (isAvailable <$> Firestore.lookup_doc "B" (users w2)) = Some (Some false)
  ∧ ¬ (∀ problemId p w,
         problems w !! problemId = Some p →
         is_Some (assignedTechnician p) →
         problems (final (assignTechnicianToProblem problemId (Some p) w))
           !! problemId
         = Some p).
Proof.
  repeat split; try (vm_compute; reflexivity).
  intros H.
  specialize (H "p9" (created_problem Sample.env Sample.leak (Some "U"))
                (final (post_problems Sample.env Sample.leak Sample.world))).
  vm_compute in H.
  specialize (H eq_refl (ex_intro _ "U" eq_refl)).
  discriminate H.
Qed.

(** ** Claims about PUT /problems/:id *)

(** C6, as the code has it.  On a stored problem, PUT with status
    "solved" answers 200 and stamps [solvedAt] with the server time of
    that request; a second PUT with status "solved" stamps it again, with
    the server time of the second request.  So [solvedAt] always holds
    the time of the latest "solved" request, and a repeated transition
    keeps it only if the two server times are the same. *)
Theorem put_solved_stamps_each_time (env1 env2 : Env) (problemId : string)
    (p : Problem) (w : World) :
  problems w !! problemId = Some p →
  let r1 := put_problem env1 problemId "solved" w in
  let r2 := put_problem env2 problemId "solved" (final r1) in
  code <$> value r1 = Some 200
  ∧ code <$> value r2 = Some 200
  ∧ problems (final r1) !! problemId
    = Some (status_update "solved" (server_time env1) p)
  ∧ (solvedAt <$> problems (final r1) !! problemId)
    = Some (Some (server_time env1))
  ∧ (solvedAt <$> problems (final r2) !! problemId)
    = Some (Some (server_time env2))
  ∧ (status <$> problems (final r2) !! problemId) = Some "solved".
Proof.
  intros Hp r1 r2. subst r1 r2.
  rewrite (put_problem_found env1 problemId "solved" w p Hp).
  cbn [final value].
  set (w1 := after_peer env1 "solved" _ _).
  assert (problems w1 !! problemId
          = Some (status_update "solved" (server_time env1) p)) as Hp1.
  { subst w1. rewrite problems_after_peer. cbn [problems].
    apply lookup_insert_eq. }
  rewrite (put_problem_found env2 problemId "solved" w1 _ Hp1).
  cbn [final value]. rewrite problems_after_peer. cbn [problems].
  rewrite Hp1, lookup_insert_eq. done.
Qed.

Lemma put_solved_stamps_each_time_witness :
  let w := final (post_problems Sample.env Sample.leak Sample.world) in
  let r1 := put_problem Sample.env "p9" "solved" w in
  let r2 := put_problem Sample.later "p9" "solved" (final r1) in
  code <$> value r1 = Some 200
  ∧ code <$> value r2 = Some 200
  ∧ problems (final r1) !! "p9"
    = Some (status_update "solved" 1000
              (created_problem Sample.env Sample.leak (Some "U")))
  ∧ (solvedAt <$> problems (final r1) !! "p9") = Some (Some 1000%Z)
  ∧ (solvedAt <$> problems (final r2) !! "p9") = Some (Some 2000%Z)
  ∧ (status <$> problems (final r2) !! "p9") = Some "solved".
Proof.
  apply (put_solved_stamps_each_time Sample.env Sample.later "p9"
           (created_problem Sample.env Sample.leak (Some "U"))
           (final (post_problems Sample.env Sample.leak Sample.world))).
  vm_compute. reflexivity.
Defined.

(** C6 as stated fails: the problem solved at time 1000 and solved again
    at time 2000 ends with [solvedAt = 2000]. *)
Lemma put_solved_twice_changes_solvedAt :
  let w := final (post_problems Sample.env Sample.leak Sample.world) in
  let w1 := final (put_problem Sample.env "p9" "solved" w) in
  let w2 := final (put_problem Sample.later "p9" "solved" w1) in
  (status <$> problems w1 !! "p9") = Some "solved"
  ∧ (solvedAt <$> problems w1 !! "p9") = Some (Some 1000%Z)
  ∧ (solvedAt <$> problems w2 !! "p9") = Some (Some 2000%Z)
  ∧ (solvedAt <$> problems w2 !! "p9") ≠ (solvedAt <$> problems w1 !! "p9").
Proof. split_and!; vm_compute; (reflexivity || discriminate). Qed.

(** C8. On a stored problem, PUT writes the requested status, stamps
    [solvedAt] with the server time exactly when that status is "solved"
    (and leaves it alone otherwise), and keeps every other field of the
    problem.  No other problem and no user is written. *)
Theorem put_problem_frame (env : Env) (problemId newStatus : string)
    (p : Problem) (w : World) :
  problems w !! problemId = Some p →
  let w' := final (put_problem env problemId newStatus w) in
  (∃ p',
     problems w' !! problemId = Some p'
     ∧ status p' = newStatus
     ∧ solvedAt p'
       = (if bool_decide (newStatus = "solved")
          then Some (server_time env) else solvedAt p)
     ∧ assignedTechnician p' = assignedTechnician p
     ∧ chefId p' = chefId p
     ∧ description p' = description p
     ∧ type p' = type p
     ∧ createdAt p' = createdAt p
     ∧ isPredefined p' = isPredefined p)
  ∧ (∀ other, other ≠ problemId → problems w' !! other = problems w !! other)
  ∧ users w' = users w.
Proof.
  intros Hp w'. subst w'.
  rewrite (put_problem_found env problemId newStatus w p Hp).
  cbn [final]. rewrite problems_after_peer, users_after_peer. cbn [problems users].
  split_and!.
  - eexists. split; [apply lookup_insert_eq |]. by split_and!.
  - intros other Hother. by apply lookup_insert_ne.
  - done.
Qed.

Lemma put_problem_frame_witness :
  let w := final (post_problems Sample.env Sample.leak Sample.world) in
  let w' := final (put_problem Sample.later "p9" "progressing" w) in
  (∃ p',
     problems w' !! "p9" = Some p'
     ∧ status p' = "progressing"
     ∧ solvedAt p' = None
     ∧ assignedTechnician p' = Some "U"
     ∧ chefId p' = Some "chef1"
     ∧ description p' = Some "Leak under the sink"
     ∧ type p' = "plumbing"
     ∧ createdAt p' = 1000%Z
     ∧ isPredefined p' = false)
  ∧ (∀ other, other ≠ "p9" → problems w' !! other = problems w !! other)
  ∧ users w' = users w.
Proof.
  apply (put_problem_frame Sample.later "p9" "progressing"
           (created_problem Sample.env Sample.leak (Some "U"))
           (final (post_problems Sample.env Sample.leak Sample.world))).
  vm_compute. reflexivity.
Defined.

(** C10. On a stored problem whose [assignedTechnician], when set, is a
    document id (not the empty string), the 200 response of PUT carries
    [technicianUpdated = true] exactly when the requested status is
    "solved" and the problem had an assigned technician.  That holds
    whatever the state of the user-management service and of the
    technician's document: when the service is down, or the problem's
    technician is not a stored user, no availability update goes out and
    no user is written, whatever [technicianUpdated] says. *)
Theorem put_problem_technicianUpdated (env : Env) (problemId newStatus : string)
    (p : Problem) (w : World) :
  problems w !! problemId = Some p →
  assignedTechnician p ≠ Some "" →
  ∃ updated,
    value (put_problem env problemId newStatus w)
    = Some (mkResponse 200
              (StatusUpdated "Problem status updated successfully" updated))
    ∧ (updated = true
       ↔ newStatus = "solved" ∧ assignedTechnician p ≠ None)
    ∧ users (final (put_problem env problemId newStatus w)) = users w
    ∧ (peer_down env = true
       ∨ (∀ technicianId,
            assignedTechnician p = Some technicianId →
            Firestore.lookup_doc technicianId (users w) = None) →
       outbox (final (put_problem env problemId newStatus w)) = outbox w).
Proof.
  intros Hp Hid.
  rewrite (put_problem_found env problemId newStatus w p Hp).
  cbn [final value]. rewrite users_after_peer. cbn [users].
  eexists. split_and!; [done | | done |].
  - rewrite andb_true_iff, bool_decide_eq_true.
    unfold truthy. destruct (assignedTechnician p) as [technicianId |].
    + rewrite negb_true_iff, bool_decide_eq_false.
      split; intros [Hsolved _]; (split; [exact Hsolved |]); [done |].
      intros ->. by apply Hid.
    + split; intros [_ ?]; done.
  - intros Hdown. unfold after_peer.
    destruct (assignedTechnician p) as [technicianId |]; [| done].
    destruct (_ && _); [| done]. cbn [users].
    destruct Hdown as [Hdown | Hmissing].
    + rewrite Hdown. by destruct (Firestore.lookup_doc _ _).
    + by rewrite (Hmissing technicianId eq_refl).
Qed.

Lemma put_problem_technicianUpdated_witness :
  ∃ updated,
    value (put_problem Sample.env_offline "p9" "solved"
             (final (post_problems Sample.env Sample.leak Sample.world)))
    = Some (mkResponse 200
              (StatusUpdated "Problem status updated successfully" updated))
    ∧ (updated = true ↔ "solved" = "solved" ∧ Some "U" ≠ None)
    ∧ users (final (put_problem Sample.env_offline "p9" "solved"
                      (final (post_problems Sample.env Sample.leak Sample.world))))
      = users (final (post_problems Sample.env Sample.leak Sample.world))
    ∧ (true = true
       ∨ (∀ technicianId,
            Some "U" = Some technicianId →
            Firestore.lookup_doc technicianId
              (users (final (post_problems Sample.env Sample.leak Sample.world)))
            = None) →
       outbox (final (put_problem Sample.env_offline "p9" "solved"
                        (final (post_problems Sample.env Sample.leak Sample.world))))
       = outbox (final (post_problems Sample.env Sample.leak Sample.world))).
Proof.
  apply (put_problem_technicianUpdated Sample.env_offline "p9" "solved"
           (created_problem Sample.env Sample.leak (Some "U"))
           (final (post_problems Sample.env Sample.leak Sample.world))).
  - vm_compute. reflexivity.
  - discriminate.
Defined.

(** The service is down, or the technician is unknown to the store:
    [technicianUpdated] is true all the same and no update goes out. *)
Example technicianUpdated_without_update :
  let w := final (post_problems Sample.env Sample.leak Sample.world) in
  let gone := mkWorld [] (problems w) [] [] in
  put_problem Sample.env_offline "p9" "solved" w
  = Ok (mkResponse 200
          (StatusUpdated "Problem status updated successfully" true))
       (final (put_problem Sample.env_offline "p9" "solved" w))
  ∧ outbox (final (put_problem Sample.env_offline "p9" "solved" w)) = outbox w
  ∧ console (final (put_problem Sample.env_offline "p9" "solved" w))
    = ["Error updating technician availability: connect ECONNREFUSED"]
  ∧ value (put_problem Sample.env "p9" "solved" gone)
    = Some (mkResponse 200
              (StatusUpdated "Problem status updated successfully" true))
  ∧ outbox (final (put_problem Sample.env "p9" "solved" gone)) = []
  ∧ console (final (put_problem Sample.env "p9" "solved" gone)) = [].
Proof. split_and!; vm_compute; reflexivity. Qed.

(** ** Claim about DELETE /problems/:id *)

Section DocumentPaths.

Implicit Types (id : string) (w : World).

Lemma split_no_slash id : Path.has_slash id = false → Path.split id = [id].
Proof.
  induction id as [| c rest IH]; [done |].
  cbn [Path.has_slash Path.split]. intros [Hc Hrest]%orb_false_iff.
  by rewrite Hc, (IH Hrest).
Qed.

Lemma no_double_slash id :
  Path.has_slash id = false → Path.has_double_slash id = false.
Proof.
  induction id as [| a rest IH]; [done |].
  cbn [Path.has_slash]. intros [Ha Hrest]%orb_false_iff.
  destruct rest as [| b rest']; [done |].
  change (Path.has_double_slash (String a (String b rest')))
    with ((Ascii.eqb a "/"%char && Ascii.eqb b "/"%char)
          || Path.has_double_slash (String b rest')).
  by rewrite Ha, (IH Hrest).
Qed.

Lemma document_id_plain id :
  Path.document_id id = true → id ≠ "" ∧ Path.has_slash id = false.
Proof.
  unfold Path.document_id. rewrite !andb_true_iff, !negb_true_iff.
  intros [[[[Hne Hslash] _] _] _]. by apply bool_decide_eq_false in Hne.
Qed.

(** [doc] accepts a document id and refers to the document of that id. *)
Lemma doc_document_id id w :
  Path.document_id id = true → Path.doc id w = Ok [id] w.
Proof.
  intros [Hne Hslash]%document_id_plain. unfold Path.doc, Path.segments.
  rewrite bool_decide_eq_false_2 by done.
  rewrite (no_double_slash id Hslash), (split_no_slash id Hslash).
  cbn [List.filter]. by rewrite bool_decide_eq_false_2.
Qed.

Lemma delete_problems_id_document id w :
  Path.document_id id = true →
  delete_problems_id id w
  = Ok (mkResponse 200 (Message "Problem deleted successfully"))
       (mkWorld (users w) (delete id (problems w)) (console w) (outbox w)).
Proof.
  intros Hid. unfold delete_problems_id, try_catch, mbind, M_bind.
  by rewrite (doc_document_id id w Hid).
Qed.

Lemma get_problems_id_document id w :
  Path.document_id id = true →
  get_problems_id id w
  = match problems w !! id with
    | Some data => Ok (mkReply 200 (ProblemDoc id data)) w
    | None => Ok (mkReply 404 (ListingError "Problem not found")) w
    end.
Proof.
  intros Hid. unfold get_problems_id, try_catch, mbind, M_bind.
  rewrite (doc_document_id id w Hid). cbn.
  by destruct (problems w !! id).
Qed.

(** On a document id the handlers on any parameter are the handlers on
    the document of that id. *)
Lemma delete_problems_id_agrees id w :
  Path.document_id id = true → delete_problems_id id w = delete_problem id w.
Proof. intros Hid. by rewrite (delete_problems_id_document id w Hid). Qed.

Lemma get_problems_id_agrees id w :
  Path.document_id id = true → get_problems_id id w = get_problem_by_id id w.
Proof.
  intros Hid. rewrite (get_problems_id_document id w Hid).
  unfold get_problem_by_id, try_catch, mbind, M_bind, Firestore.get_problem.
  by destruct (problems w !! id).
Qed.

End DocumentPaths.

(** C9. For every document id, DELETE answers 200 "Problem deleted
    successfully" whether or not a problem is stored under the id;
    afterwards no problem is stored under it, and when none was stored
    the world is left exactly as it was. *)
Theorem delete_problem_always_succeeds (problemId : string) (w : World) :
  Path.document_id problemId = true →
  delete_problems_id problemId w
  = Ok (mkResponse 200 (Message "Problem deleted successfully"))
       (mkWorld (users w) (delete problemId (problems w)) (console w) (outbox w))
  ∧ problems (final (delete_problems_id problemId w)) !! problemId = None
  ∧ (problems w !! problemId = None →
     delete_problems_id problemId w
     = Ok (mkResponse 200 (Message "Problem deleted successfully")) w).
Proof.
  intros Hid. rewrite (delete_problems_id_document problemId w Hid).
  split_and!.
  - done.
  - apply lookup_delete_eq.
  - intros Hmissing. rewrite delete_id by done. by destruct w.
Qed.

Lemma delete_problem_always_succeeds_witness :
  delete_problems_id "p404" Sample.world
  = Ok (mkResponse 200 (Message "Problem deleted successfully"))
       (mkWorld Sample.staff (delete "p404" ∅) [] [])
  ∧ problems (final (delete_problems_id "p404" Sample.world)) !! "p404" = None
  ∧ (problems Sample.world !! "p404" = None →
     delete_problems_id "p404" Sample.world
     = Ok (mkResponse 200 (Message "Problem deleted successfully")) Sample.world).
Proof.
  apply (delete_problem_always_succeeds "p404" Sample.world).
  vm_compute. reflexivity.
Defined.

(** A parameter that is no document id: "a/b" names no document, [doc]
    throws inside the [try], and the answer is 500 with nothing deleted;
    so for "/" and for a path with "//". *)
Example delete_rejected_path :
  value (delete_problems_id "a/b" Sample.world)
  = Some (mkResponse 500 (ErrorBody "Failed to delete problem"))
  ∧ problems (final (delete_problems_id "a/b" Sample.world))
    = problems Sample.world
  ∧ value (delete_problems_id "/" Sample.world)
    = Some (mkResponse 500 (ErrorBody "Failed to delete problem"))
  ∧ value (delete_problems_id "a//b" Sample.world)
    = Some (mkResponse 500 (ErrorBody "Failed to delete problem")).
Proof. split_and!; vm_compute; reflexivity. Qed.

(** ** Claim about the remote collaborators *)

Lemma snoc_ne {A} (l : list A) (x : A) : l ++ [x] ≠ l.
Proof.
  intros H. apply (f_equal length) in H. rewrite length_app in H.
  simpl in H. lia.
Qed.

Lemma console_same (sent : list Outbound) (lines : list string) line :
  lines = lines ++ (if bool_decide (sent = sent) then [] else [line]).
Proof. rewrite bool_decide_eq_true_2 by done. by rewrite app_nil_r. Qed.

Lemma console_failure (sent : list Outbound) call (lines : list string) line :
  lines ++ [line]
  = lines ++ (if bool_decide (sent ++ [call] = sent) then [] else [line]).
Proof. by rewrite bool_decide_eq_false_2 by apply snoc_ne. Qed.

Lemma post_problems_email_contained env req w :
  let up := post_problems (with_email_down false env) req w in
  let down := post_problems (with_email_down true env) req w in
  value down = value up
  ∧ users (final down) = users (final up)
  ∧ problems (final down) = problems (final up)
  ∧ console (final down)
    = console (final up)
      ++ (if bool_decide (outbox (final up) = outbox w) then []
          else ["Email sending failed: connect ECONNREFUSED"]).
Proof.
  intros up down. subst up down.
  destruct (problems w !! gen_id env) as [q |] eqn:Hgen.
  { rewrite (post_problems_collision (with_email_down true env) req w q Hgen),
      (post_problems_collision (with_email_down false env) req w q Hgen).
    cbn. split_and!; try done. apply console_same. }
  destruct (select_technician
              (List.filter (λ d, qualified (body_type req) d.2) (users w)))
    as [[technicianId |] minWorkload] eqn:Hsel.
  - destruct (decide (technicianId = "")) as [-> | Hne].
    + rewrite (post_problems_falsy_id (with_email_down true env) req w Hgen _ Hsel),
        (post_problems_falsy_id (with_email_down false env) req w Hgen _ Hsel).
      cbn. split_and!; try done. apply console_same.
    + destruct (selected_is_stored req w _ _ Hsel) as [techData Hdoc].
      rewrite (post_problems_assigned (with_email_down true env) req w Hgen
                 _ _ _ Hsel Hne Hdoc),
        (post_problems_assigned (with_email_down false env) req w Hgen
           _ _ _ Hsel Hne Hdoc).
      unfold after_email. cbn.
      destruct (email techData) as [address |]; cbn.
      * destruct (negb (bool_decide (address = ""))); cbn.
        -- split_and!; try done. apply console_failure.
        -- split_and!; try done. apply console_same.
      * split_and!; try done. apply console_same.
  - rewrite (post_problems_unassigned (with_email_down true env) req w Hgen _ Hsel),
      (post_problems_unassigned (with_email_down false env) req w Hgen _ Hsel).
    cbn. split_and!; try done. apply console_same.
Qed.

Lemma put_problem_peer_contained env problemId newStatus w :
  let up := put_problem (with_peer_down false env) problemId newStatus w in
  let down := put_problem (with_peer_down true env) problemId newStatus w in
  value down = value up
  ∧ users (final down) = users (final up)
  ∧ problems (final down) = problems (final up)
  ∧ console (final down)
    = console (final up)
      ++ (if bool_decide (outbox (final up) = outbox w) then []
          else ["Error updating technician availability: connect ECONNREFUSED"]).
Proof.
  intros up down. subst up down.
  destruct (problems w !! problemId) as [p |] eqn:Hp.
  - rewrite (put_problem_found (with_peer_down true env) _ newStatus w p Hp),
      (put_problem_found (with_peer_down false env) _ newStatus w p Hp).
    unfold after_peer. cbn.
    destruct (assignedTechnician p) as [technicianId |]; cbn.
    + destruct (bool_decide (newStatus = "solved")
                && negb (bool_decide (technicianId = ""))); cbn.
      * destruct (Firestore.lookup_doc technicianId (users w)); cbn.
        -- split_and!; try done. apply console_failure.
        -- split_and!; try done. apply console_same.
      * split_and!; try done. apply console_same.
    + split_and!; try done. apply console_same.
  - rewrite (put_problem_missing (with_peer_down true env) _ newStatus w Hp),
      (put_problem_missing (with_peer_down false env) _ newStatus w Hp).
    cbn. split_and!; try done. apply console_same.
Qed.

(** C7. A failing collaborator changes nothing but the console.  With
    the notification service down, POST /problems gives the same
    response and leaves the same users and problems as with the service
    up; with the user-management service down, so does PUT
    /problems/:id.  Whenever the call would have gone out, the failure is
    on the console. *)
Theorem collaborator_failure_is_contained :
  (∀ env req w,
     let up := post_problems (with_email_down false env) req w in
     let down := post_problems (with_email_down true env) req w in
     value down = value up
     ∧ users (final down) = users (final up)
     ∧ problems (final down) = problems (final up)
     ∧ console (final down)
       = console (final up)
         ++ (if bool_decide (outbox (final up) = outbox w) then []
             else ["Email sending failed: connect ECONNREFUSED"]))
  ∧ (∀ env problemId newStatus w,
       let up := put_problem (with_peer_down false env) problemId newStatus w in
       let down := put_problem (with_peer_down true env) problemId newStatus w in
       value down = value up
       ∧ users (final down) = users (final up)
       ∧ problems (final down) = problems (final up)
       ∧ console (final down)
         = console (final up)
           ++ (if bool_decide (outbox (final up) = outbox w) then []
               else ["Error updating technician availability: connect ECONNREFUSED"])).
Proof.
  split.
  - apply post_problems_email_contained.
  - apply put_problem_peer_contained.
Qed.

(** Both collaborators down: the problem is created and assigned, the
    technician updated, the status change written, and each request
    answered as usual; the two failures are on the console. *)
Example requests_survive_collaborators :
  let r1 := post_problems Sample.env_offline Sample.leak Sample.world in
  let r2 := put_problem Sample.env_offline "p9" "solved" (final r1) in
  value r1
  = Some (mkResponse 201
            (ProblemCreated "p9" "U" (inl 0)
               "Assigned to technician with 0 existing problems"))
  ∧ (assignedTechnician <$> problems (final r1) !! "p9") = Some (Some "U")
  ∧ (allProblems <$> Firestore.lookup_doc "U" (users (final r1)))
    = Some (Some ["p9"])
  ∧ console (final r1) = ["Email sending failed: connect ECONNREFUSED"]
  ∧ value r2
    = Some (mkResponse 200
              (StatusUpdated "Problem status updated successfully" true))
  ∧ (status <$> problems (final r2) !! "p9") = Some "solved"
  ∧ console (final r2)
    = ["Email sending failed: connect ECONNREFUSED";
       "Error updating technician availability: connect ECONNREFUSED"].
Proof. split_and!; vm_compute; reflexivity. Qed.

(** * Further properties of the handlers *)

(** ** The reading routes *)

Lemma elem_of_query (f : Problem → bool) (m : gmap string Problem) id p :
  (id, p) ∈ List.filter (λ d, f d.2) (map_to_list m)
  ↔ m !! id = Some p ∧ f p = true.
Proof.
  rewrite list_elem_of_In, filter_In, <- list_elem_of_In, elem_of_map_to_list.
  done.
Qed.

Lemma NoDup_fst_filter {A B} (f : A * B → bool) (l : list (A * B)) :
  NoDup l.*1 → NoDup (List.filter f l).*1.
Proof.
  induction l as [| d l IH]; [done |].
  csimpl. intros [Hd Hl]%NoDup_cons.
  destruct (f d); csimpl; [| by apply IH].
  apply NoDup_cons. split; [| by apply IH].
  intros (d' & Heq & Hin)%list_elem_of_fmap. apply Hd.
  apply list_elem_of_fmap. exists d'. split; [done |].
  apply list_elem_of_In in Hin. apply filter_In in Hin as [Hin _].
  by apply list_elem_of_In.
Qed.

Lemma elem_of_listing_by_flag (b : bool) (w : World) id p :
  (id, p) ∈ List.filter (λ d, bool_decide (isPredefined d.2 = b))
              (map_to_list (problems w))
  ↔ problems w !! id = Some p ∧ isPredefined p = b.
Proof.
  pose proof (elem_of_query (λ p, bool_decide (isPredefined p = b))
                (problems w) id p) as H.
  cbn beta in H. by rewrite H, bool_decide_eq_true.
Qed.

Lemma elem_of_get_problems q_chefId q_assignedTechnician w id p :
  (id, p) ∈ listed (get_problems q_chefId q_assignedTechnician w)
  ↔ problems w !! id = Some p
    ∧ (truthy q_chefId = true → chefId p = q_chefId)
    ∧ (truthy q_assignedTechnician = true →
       assignedTechnician p = q_assignedTechnician).
Proof.
  change (listed (get_problems q_chefId q_assignedTechnician w))
    with (List.filter
            (λ d, problems_query q_chefId q_assignedTechnician d.2)
            (map_to_list (problems w))).
  rewrite (elem_of_query (problems_query q_chefId q_assignedTechnician)).
  unfold problems_query.
  destruct (truthy q_chefId), (truthy q_assignedTechnician); simpl;
    rewrite ?andb_true_iff, ?bool_decide_eq_true; intuition congruence.
Qed.

(** X1. GET /problems/predefined lists exactly the stored problems with
    [isPredefined = true], GET /problems/regular exactly those with
    [isPredefined = false]; both answer 200 and change nothing, and over
    the two lists together every id occurs at most once: a stored problem
    is in one list and not in the other. *)
Theorem listings_partition (w : World) :
  (∀ id p,
     (id, p) ∈ listed (get_predefined w)
     ↔ problems w !! id = Some p ∧ isPredefined p = true)
  ∧ (∀ id p,
       (id, p) ∈ listed (get_regular w)
       ↔ problems w !! id = Some p ∧ isPredefined p = false)
  ∧ NoDup (listed (get_predefined w) ++ listed (get_regular w)).*1
  ∧ reply_code <$> value (get_predefined w) = Some 200
  ∧ reply_code <$> value (get_regular w) = Some 200
  ∧ final (get_predefined w) = w
  ∧ final (get_regular w) = w.
Proof.
  pose proof (λ b, elem_of_listing_by_flag b w) as Hlist.
  split_and!; try done.
  - intros id p. apply (Hlist true).
  - intros id p. apply (Hlist false).
  - rewrite fmap_app. apply NoDup_app. split_and!.
    + apply NoDup_fst_filter, NoDup_fst_map_to_list.
    + intros id ([id1 p1] & -> & H1)%list_elem_of_fmap
        ([id2 p2] & Heq & H2)%list_elem_of_fmap.
      simpl in Heq. subst id2.
      apply (Hlist true) in H1 as [H1 Hp1].
      apply (Hlist false) in H2 as [H2 Hp2].
      simpl in H2. rewrite H1 in H2. injection H2 as ->. congruence.
    + apply NoDup_fst_filter, NoDup_fst_map_to_list.
Qed.

(** X2. GET /problems lists exactly the stored problems that agree with
    each query parameter that is truthy: a parameter that is absent or
    the empty string filters nothing, and a problem without an assigned
    technician is never listed under an [assignedTechnician] filter.  No
    id is listed twice and the world is left as it was. *)
Theorem get_problems_filters (q_chefId q_assignedTechnician : option string)
    (w : World) :
  (∀ id p,
     (id, p) ∈ listed (get_problems q_chefId q_assignedTechnician w)
     ↔ problems w !! id = Some p
       ∧ (truthy q_chefId = true → chefId p = q_chefId)
       ∧ (truthy q_assignedTechnician = true →
          assignedTechnician p = q_assignedTechnician))
  ∧ (∀ id p,
       (id, p) ∈ listed (get_problems q_chefId q_assignedTechnician w) →
       truthy q_assignedTechnician = true →
       assignedTechnician p ≠ None)
  ∧ NoDup (listed (get_problems q_chefId q_assignedTechnician w)).*1
  ∧ final (get_problems q_chefId q_assignedTechnician w) = w.
Proof.
  pose proof (elem_of_get_problems q_chefId q_assignedTechnician w) as Hlist.
  split_and!.
  - exact Hlist.
  - intros id p Hin Ht. apply Hlist in Hin as (_ & _ & Ha).
    rewrite (Ha Ht). by destruct q_assignedTechnician.
  - apply NoDup_fst_filter, NoDup_fst_map_to_list.
  - done.
Qed.

(** ** What POST /problems writes *)

Lemma post_problems_problems env req w :
  problems w !! gen_id env = None →
  problems (final (post_problems env req w))
  = <[gen_id env :=
        created_problem env req
          (select_technician
             (List.filter (λ d, qualified (body_type req) d.2) (users w))).1]>
      (problems w).
Proof.
  intros Hfresh.
  destruct (select_technician
              (List.filter (λ d, qualified (body_type req) d.2) (users w)))
    as [[technicianId |] minWorkload] eqn:Hsel.
  - destruct (decide (technicianId = "")) as [-> | Hid].
    + by rewrite (post_problems_falsy_id env req w Hfresh minWorkload Hsel).
    + destruct (selected_is_stored req w _ _ Hsel) as [techData Hdoc].
      rewrite (post_problems_assigned env req w Hfresh _ _ _ Hsel Hid Hdoc).
      cbn [final]. by rewrite problems_after_email.
  - by rewrite (post_problems_unassigned env req w Hfresh _ Hsel).
Qed.

Lemma post_problems_users env req w :
  problems w !! gen_id env = None →
  users (final (post_problems env req w))
  = match (select_technician
             (List.filter (λ d, qualified (body_type req) d.2) (users w))).1 with
    | Some technicianId =>
        if decide (technicianId = "") then users w
        else Firestore.update_doc technicianId
               (assignment_updates (gen_id env) (server_time env)
                  (Firestore.lookup_doc technicianId (users w)))
               (users w)
    | None => users w
    end.
Proof.
  intros Hfresh.
  destruct (select_technician
              (List.filter (λ d, qualified (body_type req) d.2) (users w)))
    as [[technicianId |] minWorkload] eqn:Hsel; cbn [fst].
  - destruct (decide (technicianId = "")) as [-> | Hid].
    + by rewrite (post_problems_falsy_id env req w Hfresh minWorkload Hsel).
    + destruct (selected_is_stored req w _ _ Hsel) as [techData Hdoc].
      rewrite (post_problems_assigned env req w Hfresh _ _ _ Hsel Hid Hdoc).
      cbn [final]. rewrite users_after_email. cbn [users]. by rewrite Hdoc.
  - by rewrite (post_problems_unassigned env req w Hfresh _ Hsel).
Qed.

(** A technician named by the new problem passed the query of step 1. *)
Lemma assigned_is_qualified env req w technicianId :
  problems w !! gen_id env = None →
  (assignedTechnician
     <$> problems (final (post_problems env req w)) !! gen_id env)
  = Some (Some technicianId) →
  ∃ u, (technicianId, u) ∈ users w ∧ qualified (body_type req) u = true.
Proof.
  intros Hfresh Hassigned.
  rewrite (post_problems_problems env req w Hfresh), lookup_insert_eq in Hassigned.
  simpl in Hassigned.
  pose proof (select_technician_selected
                (List.filter (λ d, qualified (body_type req) d.2) (users w)))
    as Hsel.
  destruct (select_technician _) as [assignee minWorkload].
  simpl in Hassigned. injection Hassigned as ->.
  inversion Hsel as [| before id u after Hsnap _ _]. subst.
  exists u. apply (elem_of_filter_docs (qualified (body_type req))).
  rewrite Hsnap. set_solver.
Qed.

(** ** Round trips through the store *)

(** X3. A problem created by POST /problems or POST /problems/predefined
    is read back by GET /problems/:id under the id of the response: the
    answer is 200 with the fields of the request, status "waiting", the
    server time as [createdAt], and [description] falling back to
    [title] when it is absent or empty.  Before the creation the same
    GET answered 404. *)
Theorem get_after_create (env : Env) (req : ProblemBody) (w : World) :
  problems w !! gen_id env = None →
  value (get_problem_by_id (gen_id env) w)
  = Some (mkReply 404 (ListingError "Problem not found"))
  ∧ (∃ assignee,
       value (get_problem_by_id (gen_id env) (final (post_problems env req w)))
       = Some (mkReply 200
                 (ProblemDoc (gen_id env)
                    {| chefId := body_chefId req;
                       description :=
                         if truthy (body_description req)
                         then body_description req else body_title req;
                       type := body_type req;
                       status := "waiting";
                       createdAt := server_time env;
                       isPredefined := false;
                       assignedTechnician := assignee;
                       solvedAt := None |})))
  ∧ value (get_problem_by_id (gen_id env) (final (post_predefined env req w)))
    = Some (mkReply 200
              (ProblemDoc (gen_id env)
                 {| chefId := Some "system";
                    description :=
                      if truthy (body_description req)
                      then body_description req else body_title req;
                    type := body_type req;
                    status := "waiting";
                    createdAt := server_time env;
                    isPredefined := true;
                    assignedTechnician := None;
                    solvedAt := None |})).
Proof.
  intros Hfresh. split_and!.
  - unfold get_problem_by_id, try_catch, mbind, M_bind, Firestore.get_problem.
    by rewrite Hfresh.
  - eexists.
    unfold get_problem_by_id, try_catch, mbind, M_bind, Firestore.get_problem.
    rewrite (post_problems_problems env req w Hfresh), lookup_insert_eq.
    reflexivity.
  - unfold get_problem_by_id, try_catch, mbind, M_bind, Firestore.get_problem.
    rewrite (post_predefined_fresh env req w Hfresh). cbn [final problems].
    by rewrite lookup_insert_eq.
Qed.

Lemma get_after_create_witness :
  value (get_problem_by_id "p9" Sample.world)
  = Some (mkReply 404 (ListingError "Problem not found"))
  ∧ (∃ assignee,
       value (get_problem_by_id "p9"
                (final (post_problems Sample.env Sample.outage Sample.world)))
       = Some (mkReply 200
                 (ProblemDoc "p9"
                    {| chefId := Some "chef1";
                       description := Some "Outage";
                       type := "electrical";
                       status := "waiting";
                       createdAt := 1000;
                       isPredefined := false;
                       assignedTechnician := assignee;
                       solvedAt := None |})))
  ∧ value (get_problem_by_id "p9"
             (final (post_predefined Sample.env Sample.outage Sample.world)))
    = Some (mkReply 200
              (ProblemDoc "p9"
                 {| chefId := Some "system";
                    description := Some "Outage";
                    type := "electrical";
                    status := "waiting";
                    createdAt := 1000;
                    isPredefined := true;
                    assignedTechnician := None;
                    solvedAt := None |})).
Proof.
  apply (get_after_create Sample.env Sample.outage Sample.world).
  vm_compute. reflexivity.
Defined.

Lemma route_get_problems_id segment w :
  Path.lower segment ≠ "predefined" →
  Path.lower segment ≠ "regular" →
  route_get_problems segment w = get_problems_id segment w.
Proof.
  intros Hp Hr. unfold route_get_problems.
  by rewrite !bool_decide_eq_false_2.
Qed.

(** X4. For a document id that the router does not take for one of the
    two listings (it is neither "predefined" nor "regular", whatever the
    case of its letters): after DELETE /problems/<id>, GET
    /problems/<id> answers 404, whether or not the id was stored before,
    and GET /problems/<other> answers for every other such id as it did
    before the deletion. *)
Theorem get_after_delete (problemId : string) (w : World) :
  Path.document_id problemId = true →
  Path.lower problemId ≠ "predefined" →
  Path.lower problemId ≠ "regular" →
  value (route_get_problems problemId (final (delete_problems_id problemId w)))
  = Some (mkReply 404 (ListingError "Problem not found"))
  ∧ (∀ other,
       Path.document_id other = true →
       Path.lower other ≠ "predefined" →
       Path.lower other ≠ "regular" →
       other ≠ problemId →
       value (route_get_problems other (final (delete_problems_id problemId w)))
       = value (route_get_problems other w)).
Proof.
  intros Hid Hp Hr.
  rewrite (delete_problems_id_document problemId w Hid). cbn [final].
  split.
  - rewrite (route_get_problems_id problemId _ Hp Hr).
    rewrite (get_problems_id_document problemId _ Hid). cbn [problems].
    by rewrite lookup_delete_eq.
  - intros other Hother Hp' Hr' Hne.
    rewrite !(route_get_problems_id other _ Hp' Hr').
    rewrite !(get_problems_id_document other _ Hother). cbn [problems].
    rewrite lookup_delete_ne by done.
    by destruct (problems w !! other).
Qed.

Lemma get_after_delete_witness :
  value (route_get_problems "p9"
           (final (delete_problems_id "p9"
                     (final (post_problems Sample.env Sample.leak Sample.world)))))
  = Some (mkReply 404 (ListingError "Problem not found"))
  ∧ (∀ other,
       Path.document_id other = true →
       Path.lower other ≠ "predefined" →
       Path.lower other ≠ "regular" →
       other ≠ "p9" →
       value (route_get_problems other
                (final (delete_problems_id "p9"
                          (final (post_problems Sample.env Sample.leak
                                    Sample.world)))))
       = value (route_get_problems other
                  (final (post_problems Sample.env Sample.leak Sample.world)))).
Proof.
  apply (get_after_delete "p9"
           (final (post_problems Sample.env Sample.leak Sample.world))).
  - vm_compute. reflexivity.
  - vm_compute. discriminate.
  - vm_compute. discriminate.
Defined.

(** The two listings come first: GET /problems/predefined and GET
    /problems/Regular answer with a list, stored or not; GET
    /problems/a%2Fb reaches the handler with a parameter that names no
    document and answers 500. *)
Example get_shadowed_and_rejected :
  let w := final (post_problems Sample.env Sample.leak Sample.world) in
  reply_code <$> value (route_get_problems "predefined" w) = Some 200
  ∧ listed (route_get_problems "predefined" w) = []
  ∧ (fst <$> listed (route_get_problems "Regular" w)) = ["p9"]
  ∧ (reply_code <$> value (route_get_problems "p9" w)) = Some 200
  ∧ value (get_problems_id "a/b" w)
    = Some (mkReply 500 (ListingError "Failed to fetch problem")).
Proof. split_and!; vm_compute; reflexivity. Qed.

(** X5. Deleting the problem that POST /problems has just created gives
    back the problems collection as it was before the creation, but not
    the users collection: the technician the problem was assigned to
    keeps the id in [allProblems], and with it the workload and
    availability computed at assignment. *)
Theorem delete_after_post (env : Env) (req : ProblemBody) (w : World) :
  problems w !! gen_id env = None →
  let w1 := final (post_problems env req w) in
  let w2 := final (delete_problem (gen_id env) w1) in
  problems w2 = problems w
  ∧ users w2 = users w1
  ∧ (∀ technicianId,
       technicianId ≠ "" →
       (assignedTechnician <$> problems w1 !! gen_id env)
       = Some (Some technicianId) →
       ∃ u, Firestore.lookup_doc technicianId (users w2) = Some u
            ∧ gen_id env ∈ default [] (allProblems u)
            ∧ currentProblem u = Some (gen_id env)).
Proof.
  intros Hfresh w1 w2. subst w1 w2.
  change (final (delete_problem (gen_id env) (final (post_problems env req w))))
    with (mkWorld (users (final (post_problems env req w)))
            (delete (gen_id env) (problems (final (post_problems env req w))))
            (console (final (post_problems env req w)))
            (outbox (final (post_problems env req w)))).
  cbn [problems users]. split_and!.
  - rewrite (post_problems_problems env req w Hfresh).
    rewrite delete_insert_eq. by apply delete_id.
  - done.
  - intros technicianId Hid Hassigned.
    rewrite (post_problems_problems env req w Hfresh), lookup_insert_eq in Hassigned.
    rewrite (post_problems_users env req w Hfresh).
    destruct (select_technician _) as [assignee minWorkload] eqn:Hsel.
    simpl in Hassigned. injection Hassigned as ->. cbn [fst].
    rewrite decide_False by done.
    destruct (selected_is_stored req w _ _ Hsel) as [techData Hdoc].
    rewrite Hdoc. eexists. split; [by apply lookup_update_doc_eq |].
    simpl. split; [| done].
    unfold Firestore.arrayUnion. destruct (allProblems techData) as [l |].
    + case_bool_decide; [done |]. set_solver.
    + set_solver.
Qed.

Lemma delete_after_post_witness :
  let w1 := final (post_problems Sample.env Sample.leak Sample.world) in
  let w2 := final (delete_problem "p9" w1) in
  problems w2 = problems Sample.world
  ∧ users w2 = users w1
  ∧ (∀ technicianId,
       technicianId ≠ "" →
       (assignedTechnician <$> problems w1 !! "p9") = Some (Some technicianId) →
       ∃ u, Firestore.lookup_doc technicianId (users w2) = Some u
            ∧ "p9" ∈ default [] (allProblems u)
            ∧ currentProblem u = Some "p9").
Proof.
  apply (delete_after_post Sample.env Sample.leak Sample.world).
  vm_compute. reflexivity.
Defined.

(** ** Who POST /problems assigns, and what else it touches *)

(** X6. POST /problems never assigns to a user who did not pass the
    query: whenever the new problem names a technician, that technician
    is a stored user with role "technicien", with the requested type as
    speciality, and marked available. *)
Theorem post_problems_assigns_only_qualified (env : Env) (req : ProblemBody)
    (w : World) (technicianId : string) :
  problems w !! gen_id env = None →
  (assignedTechnician
     <$> problems (final (post_problems env req w)) !! gen_id env)
  = Some (Some technicianId) →
  ∃ u,
    (technicianId, u) ∈ users w
    ∧ role u = Some "technicien"
    ∧ speciality u = Some (body_type req)
    ∧ isAvailable u = Some true.
Proof.
  intros Hfresh Hassigned.
  destruct (assigned_is_qualified env req w technicianId Hfresh Hassigned)
    as (u & Hin & Hq).
  exists u. unfold qualified in Hq.
  apply andb_true_iff in Hq as [Hq Havailable].
  apply andb_true_iff in Hq as [Hrole Hspeciality].
  apply bool_decide_eq_true in Hrole, Hspeciality, Havailable.
  done.
Qed.

Lemma post_problems_assigns_only_qualified_witness :
  ∃ u,
    ("U", u) ∈ Sample.staff
    ∧ role u = Some "technicien"
    ∧ speciality u = Some "plumbing"
    ∧ isAvailable u = Some true.
Proof.
  apply (post_problems_assigns_only_qualified Sample.env Sample.leak
           Sample.world "U").
  - vm_compute. reflexivity.
  - vm_compute. reflexivity.
Defined.

(** X7. The problem created by POST /problems is left without a
    technician exactly when no stored user passes the query: as soon as
    one user qualifies, the problem is assigned. *)
Theorem post_problems_unassigned_iff (env : Env) (req : ProblemBody)
    (w : World) :
  problems w !! gen_id env = None →
  (assignedTechnician
     <$> problems (final (post_problems env req w)) !! gen_id env)
  = Some None
  ↔ ∀ id u, (id, u) ∈ users w → qualified (body_type req) u = false.
Proof.
  intros Hfresh.
  rewrite (post_problems_problems env req w Hfresh), lookup_insert_eq.
  simpl. split.
  - intros Hnone id u Hin.
    destruct (qualified (body_type req) u) eqn:Hq; [| done].
    assert ((id, u) ∈ List.filter (λ d, qualified (body_type req) d.2) (users w))
      as Hsnap.
    { apply list_elem_of_In, filter_In. split; [by apply list_elem_of_In | done]. }
    destruct (select_technician_some
                (List.filter (λ d, qualified (body_type req) d.2) (users w)))
      as (before & technicianId & u' & after & _ & _ & _ & Hsel).
    { intros Hnil. rewrite Hnil in Hsnap. by apply elem_of_nil in Hsnap. }
    rewrite Hsel in Hnone. discriminate Hnone.
  - intros Hnone.
    rewrite (filter_none (λ d, qualified (body_type req) d.2) (users w)); [done |].
    intros [id u] Hin. by apply (Hnone id u).
Qed.

Lemma post_problems_unassigned_iff_witness :
  (assignedTechnician
     <$> problems (final (post_problems Sample.env Sample.outage Sample.world))
           !! "p9")
  = Some None
  ↔ ∀ id u, (id, u) ∈ Sample.staff → qualified "electrical" u = false.
Proof.
  apply (post_problems_unassigned_iff Sample.env Sample.outage Sample.world).
  vm_compute. reflexivity.
Defined.

(** X8. POST /problems writes at most one user: the collection keeps its
    ids in their order, and every user other than the technician named
    by the new problem is left exactly as it was. *)
Theorem post_problems_frame_users (env : Env) (req : ProblemBody) (w : World) :
  problems w !! gen_id env = None →
  (users (final (post_problems env req w))).*1 = (users w).*1
  ∧ (∀ id,
       (assignedTechnician
          <$> problems (final (post_problems env req w)) !! gen_id env)
       ≠ Some (Some id) →
       Firestore.lookup_doc id (users (final (post_problems env req w)))
       = Firestore.lookup_doc id (users w)).
Proof.
  intros Hfresh.
  rewrite (post_problems_users env req w Hfresh),
    (post_problems_problems env req w Hfresh), lookup_insert_eq.
  destruct (select_technician _) as [[technicianId |] minWorkload];
    cbn [fst]; [| done].
  destruct (decide (technicianId = "")); [done |]. split.
  - apply update_doc_ids.
  - intros id Hid. apply lookup_update_doc_ne. intros ->. by apply Hid.
Qed.

Lemma post_problems_frame_users_witness :
  (users (final (post_problems Sample.env Sample.leak Sample.world))).*1
  = ["B"; "T"; "U"; "V"; "E"]
  ∧ (∀ id,
       (assignedTechnician
          <$> problems (final (post_problems Sample.env Sample.leak Sample.world))
                !! "p9")
       ≠ Some (Some id) →
       Firestore.lookup_doc id
         (users (final (post_problems Sample.env Sample.leak Sample.world)))
       = Firestore.lookup_doc id Sample.staff).
Proof.
  apply (post_problems_frame_users Sample.env Sample.leak Sample.world).
  vm_compute. reflexivity.
Defined.

(** X9. When the store rejects the insert of step 3 (the generated id is
    taken), POST /problems answers 500 "Failed to create problem" and has
    written nothing: no problem is changed, no technician is updated and
    no email goes out; only the console records the error. *)
Theorem post_problems_rejected_insert (env : Env) (req : ProblemBody)
    (w : World) (p : Problem) :
  problems w !! gen_id env = Some p →
  value (post_problems env req w)
  = Some (mkResponse 500 (ErrorBody "Failed to create problem"))
  ∧ problems (final (post_problems env req w)) = problems w
  ∧ users (final (post_problems env req w)) = users w
  ∧ outbox (final (post_problems env req w)) = outbox w
  ∧ console (final (post_problems env req w))
    = console w ++ ["Error creating problem: ALREADY_EXISTS"].
Proof.
  intros Htaken. by rewrite (post_problems_collision env req w p Htaken).
Qed.

Lemma post_problems_rejected_insert_witness :
  let w1 := final (post_problems Sample.env Sample.outage Sample.world) in
  value (post_problems Sample.env Sample.leak w1)
  = Some (mkResponse 500 (ErrorBody "Failed to create problem"))
  ∧ problems (final (post_problems Sample.env Sample.leak w1)) = problems w1
  ∧ users (final (post_problems Sample.env Sample.leak w1)) = users w1
  ∧ outbox (final (post_problems Sample.env Sample.leak w1)) = outbox w1
  ∧ console (final (post_problems Sample.env Sample.leak w1))
    = console w1 ++ ["Error creating problem: ALREADY_EXISTS"].
Proof.
  apply (post_problems_rejected_insert Sample.env Sample.leak
           (final (post_problems Sample.env Sample.outage Sample.world))
           (created_problem Sample.env Sample.outage None)).
  vm_compute. reflexivity.
Defined.

(** X10. POST /problems sends at most one email, and only to the address
    stored with the technician the new problem names; it sends that
    email whenever the technician has a non-empty address and the
    notification service is up.  The body quotes the description, or the
    title when the description is absent or empty. *)
Theorem post_problems_email (env : Env) (req : ProblemBody) (w : World) :
  problems w !! gen_id env = None →
  let r := post_problems env req w in
  let mail to :=
    NotifyEmail to "New Problem Assigned"
      ("You have been assigned a new problem: "
       +:+ js_template (js_or (body_description req) (body_title req))) in
  (outbox (final r) = outbox w
   ∨ ∃ technicianId u to,
       (assignedTechnician <$> problems (final r) !! gen_id env)
       = Some (Some technicianId)
       ∧ Firestore.lookup_doc technicianId (users w) = Some u
       ∧ email u = Some to
       ∧ outbox (final r) = outbox w ++ [mail to])
  ∧ (∀ technicianId u to,
       (assignedTechnician <$> problems (final r) !! gen_id env)
       = Some (Some technicianId) →
       technicianId ≠ "" →
       Firestore.lookup_doc technicianId (users w) = Some u →
       email u = Some to →
       to ≠ "" →
       email_down env = false →
       outbox (final r) = outbox w ++ [mail to]).
Proof.
  intros Hfresh r mail. subst r mail. cbn beta.
  rewrite (post_problems_problems env req w Hfresh), lookup_insert_eq.
  destruct (select_technician
              (List.filter (λ d, qualified (body_type req) d.2) (users w)))
    as [[technicianId |] minWorkload] eqn:Hsel; cbn [fst fmap option_fmap option_map
                                                      assignedTechnician created_problem].
  - destruct (decide (technicianId = "")) as [-> | Hid].
    + rewrite (post_problems_falsy_id env req w Hfresh minWorkload Hsel).
      split; [by left |]. by intros ? ? ? [= <-] ?.
    + destruct (selected_is_stored req w _ _ Hsel) as [techData Hdoc].
      rewrite (post_problems_assigned env req w Hfresh _ _ _ Hsel Hid Hdoc).
      cbn [final]. unfold after_email. split.
      * destruct (email techData) as [address |] eqn:Hmail; [| by left].
        destruct (truthy (Some address)); [| by left].
        destruct (email_down env); [by left |].
        right. by exists technicianId, techData, address.
      * intros ? u to [= <-] _ Hu Hto Hne Hup.
        rewrite Hdoc in Hu. injection Hu as <-. rewrite Hto, Hup.
        unfold truthy. by rewrite bool_decide_eq_false_2.
  - rewrite (post_problems_unassigned env req w Hfresh _ Hsel).
    split; [by left |]. by intros ? ? ? [=].
Qed.

Lemma post_problems_email_witness :
  let r := post_problems Sample.env Sample.leak Sample.world in
  let mail to :=
    NotifyEmail to "New Problem Assigned"
      ("You have been assigned a new problem: "
       +:+ js_template (js_or (Some "Leak under the sink") (Some "Leak"))) in
  (outbox (final r) = []
   ∨ ∃ technicianId u to,
       (assignedTechnician <$> problems (final r) !! "p9")
       = Some (Some technicianId)
       ∧ Firestore.lookup_doc technicianId Sample.staff = Some u
       ∧ email u = Some to
       ∧ outbox (final r) = [] ++ [mail to])
  ∧ (∀ technicianId u to,
       (assignedTechnician <$> problems (final r) !! "p9")
       = Some (Some technicianId) →
       technicianId ≠ "" →
       Firestore.lookup_doc technicianId Sample.staff = Some u →
       email u = Some to →
       to ≠ "" →
       false = false →
       outbox (final r) = [] ++ [mail to]).
Proof.
  apply (post_problems_email Sample.env Sample.leak Sample.world).
  vm_compute. reflexivity.
Defined.

Lemma post_problems_ids env req w :
  problems w !! gen_id env = None →
  (users (final (post_problems env req w))).*1 = (users w).*1.
Proof.
  intros Hfresh. rewrite (post_problems_users env req w Hfresh).
  destruct (select_technician _) as [[technicianId |] minWorkload];
    cbn [fst]; [| done].
  destruct (decide (technicianId = "")); [done |]. apply update_doc_ids.
Qed.

(** X11. The capacity threshold holds across requests: a technician who
    already carried two or more problems when POST /problems assigned a
    new one is marked unavailable by that request, and the next
    POST /problems, whatever it asks for, does not assign to that
    technician.  User ids are distinct and the technician's id is a
    document id. *)
Theorem capacity_holds_across_requests (env env' : Env) (req req' : ProblemBody)
    (w : World) (technicianId : string) (u : User) :
  NoDup (users w).*1 →
  problems w !! gen_id env = None →
  (assignedTechnician
     <$> problems (final (post_problems env req w)) !! gen_id env)
  = Some (Some technicianId) →
  technicianId ≠ "" →
  Firestore.lookup_doc technicianId (users w) = Some u →
  2 ≤ workload u →
  let w1 := final (post_problems env req w) in
  problems w1 !! gen_id env' = None →
  (isAvailable <$> Firestore.lookup_doc technicianId (users w1))
  = Some (Some false)
  ∧ (assignedTechnician
       <$> problems (final (post_problems env' req' w1)) !! gen_id env')
    ≠ Some (Some technicianId).
Proof.
  intros Hnodup Hfresh Hassigned Hid Hdoc Hload w1 Hfresh'.
  assert (Firestore.lookup_doc technicianId (users w1)
          = Some (assignment_updates (gen_id env) (server_time env) (Some u) u))
    as Hdoc1.
  { subst w1. rewrite (post_problems_users env req w Hfresh).
    rewrite (post_problems_problems env req w Hfresh), lookup_insert_eq
      in Hassigned.
    destruct (select_technician _) as [assignee minWorkload].
    simpl in Hassigned. injection Hassigned as ->. cbn [fst].
    rewrite decide_False by done. rewrite Hdoc.
    by apply lookup_update_doc_eq. }
  assert (isAvailable
            (assignment_updates (gen_id env) (server_time env) (Some u) u)
          = Some false) as Hbusy.
  { simpl. f_equal. apply bool_decide_eq_false. lia. }
  split.
  - by rewrite Hdoc1, <- Hbusy.
  - intros Hagain.
    destruct (assigned_is_qualified env' req' w1 technicianId Hfresh' Hagain)
      as (u' & Hin & Hq).
    assert (NoDup (users w1).*1) as Hnodup1.
    { subst w1. by rewrite (post_problems_ids env req w Hfresh). }
    rewrite (lookup_doc_NoDup _ _ _ Hnodup1 Hin) in Hdoc1.
    injection Hdoc1 as ->.
    unfold qualified in Hq. apply andb_true_iff in Hq as [_ Havailable].
    apply bool_decide_eq_true in Havailable. congruence.
Qed.

Lemma capacity_holds_across_requests_witness :
  let w :=
    mkWorld [("T", Sample.technician "plumbing" true (Some ["p5"; "p6"]) None)]
      ∅ [] [] in
  let w1 := final (post_problems Sample.env Sample.leak w) in
  (isAvailable <$> Firestore.lookup_doc "T" (users w1)) = Some (Some false)
  ∧ (assignedTechnician
       <$> problems (final (post_problems Sample.later Sample.leak w1)) !! "p10")
    ≠ Some (Some "T").
Proof.
  apply (capacity_holds_across_requests Sample.env Sample.later
           Sample.leak Sample.leak
           (mkWorld [("T", Sample.technician "plumbing" true
                             (Some ["p5"; "p6"]) None)] ∅ [] [])
           "T" (Sample.technician "plumbing" true (Some ["p5"; "p6"]) None)).
  - apply NoDup_singleton.
  - vm_compute. reflexivity.
  - vm_compute. reflexivity.
  - discriminate.
  - vm_compute. reflexivity.
  - unfold workload. simpl. lia.
  - vm_compute. reflexivity.
Defined.

(** ** Created problems in the listings *)

(** X12. A problem created by POST /problems shows up in
    GET /problems/regular and not in GET /problems/predefined; one
    created by POST /problems/predefined shows up in the predefined
    listing and not in the regular one.  When POST /problems assigned the
    problem to a technician with a non-empty id, GET /problems filtered
    by that technician lists it. *)
Theorem listings_after_create (env : Env) (req : ProblemBody) (w : World) :
  problems w !! gen_id env = None →
  let regular := final (post_problems env req w) in
  let template := final (post_predefined env req w) in
  (∃ p, (gen_id env, p) ∈ listed (get_regular regular))
  ∧ (∀ p, (gen_id env, p) ∉ listed (get_predefined regular))
  ∧ (∃ p, (gen_id env, p) ∈ listed (get_predefined template))
  ∧ (∀ p, (gen_id env, p) ∉ listed (get_regular template))
  ∧ (∀ technicianId,
       technicianId ≠ "" →
       (assignedTechnician <$> problems regular !! gen_id env)
       = Some (Some technicianId) →
       ∃ p, (gen_id env, p)
            ∈ listed (get_problems None (Some technicianId) regular)).
Proof.
  intros Hfresh regular template.
  assert (∃ assignee,
            problems regular !! gen_id env
            = Some (created_problem env req assignee)) as [assignee Hregular].
  { eexists. subst regular.
    rewrite (post_problems_problems env req w Hfresh). apply lookup_insert_eq. }
  assert (∃ p, problems template !! gen_id env = Some p
               ∧ isPredefined p = true) as (t & Htemplate & Ht).
  { eexists. subst template.
    rewrite (post_predefined_fresh env req w Hfresh). cbn [final problems].
    split; [apply lookup_insert_eq | done]. }
  split_and!.
  - eexists. by apply (elem_of_listing_by_flag false regular).
  - intros p [Hp Hflag]%(elem_of_listing_by_flag true regular).
    rewrite Hregular in Hp. injection Hp as <-. discriminate Hflag.
  - exists t. by apply (elem_of_listing_by_flag true template).
  - intros p [Hp Hflag]%(elem_of_listing_by_flag false template).
    rewrite Htemplate in Hp. injection Hp as <-. congruence.
  - intros technicianId Hid Hassigned.
    rewrite Hregular in Hassigned. simpl in Hassigned.
    injection Hassigned as ->.
    eexists. apply elem_of_get_problems. split_and!; [exact Hregular | done |].
    done.
Qed.

Lemma listings_after_create_witness :
  let regular := final (post_problems Sample.env Sample.leak Sample.world) in
  let template := final (post_predefined Sample.env Sample.leak Sample.world) in
  (∃ p, ("p9", p) ∈ listed (get_regular regular))
  ∧ (∀ p, ("p9", p) ∉ listed (get_predefined regular))
  ∧ (∃ p, ("p9", p) ∈ listed (get_predefined template))
  ∧ (∀ p, ("p9", p) ∉ listed (get_regular template))
  ∧ (∀ technicianId,
       technicianId ≠ "" →
       (assignedTechnician <$> problems regular !! "p9")
       = Some (Some technicianId) →
       ∃ p, ("p9", p) ∈ listed (get_problems None (Some technicianId) regular)).
Proof.
  apply (listings_after_create Sample.env Sample.leak Sample.world).
  vm_compute. reflexivity.
Defined.

(** ** Edge cases of PUT /problems/:id *)



Lemma put_problem_stored env problemId newStatus w p :
  problems w !! problemId = Some p →
  problems (final (put_problem env problemId newStatus w)) !! problemId
  = Some (status_update newStatus (server_time env) p).
Proof.
  intros Hp. rewrite (put_problem_found env problemId newStatus w p Hp).
  cbn [final]. rewrite problems_after_peer. cbn [problems].
  apply lookup_insert_eq.
Qed.

(** X14. No transition is refused.  Two PUTs in a row on a stored
    problem both answer 200; the problem ends with the second status,
    whatever the first was, and [solvedAt] holds the server time of the
    last of the two requests that asked for "solved", or its old value
    when neither did.  In particular a solved problem put back to another
    status keeps its [solvedAt]. *)
Theorem put_problem_twice (env1 env2 : Env) (problemId status1 status2 : string)
    (p : Problem) (w : World) :
  problems w !! problemId = Some p →
  let r1 := put_problem env1 problemId status1 w in
  let r2 := put_problem env2 problemId status2 (final r1) in
  code <$> value r1 = Some 200
  ∧ code <$> value r2 = Some 200
  ∧ (status <$> problems (final r2) !! problemId) = Some status2
  ∧ (solvedAt <$> problems (final r2) !! problemId)
    = Some (if bool_decide (status2 = "solved") then Some (server_time env2)
            else if bool_decide (status1 = "solved") then Some (server_time env1)
            else solvedAt p)
  ∧ (assignedTechnician <$> problems (final r2) !! problemId)
    = Some (assignedTechnician p).
Proof.
  intros Hp r1 r2. subst r1 r2.
  pose proof (put_problem_stored env1 problemId status1 w p Hp) as Hp1.
  pose proof (put_problem_stored env2 problemId status2 _ _ Hp1) as Hp2.
  rewrite Hp2.
  rewrite (put_problem_found env2 problemId status2 _ _ Hp1).
  rewrite (put_problem_found env1 problemId status1 w p Hp).
  done.
Qed.

Lemma put_problem_twice_witness :
  let w := final (post_problems Sample.env Sample.leak Sample.world) in
  let r1 := put_problem Sample.env "p9" "solved" w in
  let r2 := put_problem Sample.later "p9" "waiting" (final r1) in
  code <$> value r1 = Some 200
  ∧ code <$> value r2 = Some 200
  ∧ (status <$> problems (final r2) !! "p9") = Some "waiting"
  ∧ (solvedAt <$> problems (final r2) !! "p9") = Some (Some 1000%Z)
  ∧ (assignedTechnician <$> problems (final r2) !! "p9") = Some (Some "U").
Proof.
  apply (put_problem_twice Sample.env Sample.later "p9" "solved" "waiting"
           (created_problem Sample.env Sample.leak (Some "U"))
           (final (post_problems Sample.env Sample.leak Sample.world))).
  vm_compute. reflexivity.
Defined.

(** X15. PUT calls the user-management service at most once, and only
    for status "solved" on a problem whose technician is a stored user;
    the call names that technician and asks for [isAvailable: true] and
    [currentProblem: null].  For every other status, for a problem
    without a technician and for a technician unknown to the store, no
    call is made. *)
Theorem put_problem_peer_call (env : Env) (problemId newStatus : string)
    (p : Problem) (w : World) :
  problems w !! problemId = Some p →
  let r := put_problem env problemId newStatus w in
  (outbox (final r) = outbox w
   ∨ ∃ technicianId,
       newStatus = "solved"
       ∧ assignedTechnician p = Some technicianId
       ∧ is_Some (Firestore.lookup_doc technicianId (users w))
       ∧ outbox (final r) = outbox w ++ [PutAvailability technicianId true None])
  ∧ (newStatus ≠ "solved" → outbox (final r) = outbox w)
  ∧ (assignedTechnician p = None → outbox (final r) = outbox w)
  ∧ (∀ technicianId,
       assignedTechnician p = Some technicianId →
       Firestore.lookup_doc technicianId (users w) = None →
       outbox (final r) = outbox w)
  ∧ (∀ technicianId,
       newStatus = "solved" →
       assignedTechnician p = Some technicianId →
       technicianId ≠ "" →
       is_Some (Firestore.lookup_doc technicianId (users w)) →
       peer_down env = false →
       outbox (final r) = outbox w ++ [PutAvailability technicianId true None]).
Proof.
  intros Hp r. subst r.
  rewrite (put_problem_found env problemId newStatus w p Hp).
  cbn [final]. unfold after_peer. cbn [users].
  destruct (assignedTechnician p) as [technicianId |] eqn:Hassigned;
    [destruct (bool_decide (newStatus = "solved")) eqn:Hsolved;
       [apply bool_decide_eq_true in Hsolved
       | apply bool_decide_eq_false in Hsolved]; cbn [andb];
       [destruct (truthy (Some technicianId)) eqn:Htruthy;
          [destruct (Firestore.lookup_doc technicianId (users w)) eqn:Hdoc;
             [destruct (peer_down env) eqn:Hdown |] |] |] |];
    cbn [outbox]; split_and!; intros; simplify_eq; try done; try (by left).
  all: try (right; eexists; split_and!; [done | done | | done];
            rewrite Hdoc; by eexists).
  all: try (match goal with
            | H : is_Some _ |- _ => rewrite Hdoc in H; by destruct H
            end).
  all: try (by rewrite Hdoc).
  unfold truthy in Htruthy.
  rewrite bool_decide_eq_false_2 in Htruthy by done. discriminate Htruthy.
Qed.

Lemma put_problem_peer_call_witness :
  let w := final (post_problems Sample.env Sample.leak Sample.world) in
  let r := put_problem Sample.env "p9" "solved" w in
  (outbox (final r) = outbox w
   ∨ ∃ technicianId,
       "solved" = "solved"
       ∧ Some "U" = Some technicianId
       ∧ is_Some (Firestore.lookup_doc technicianId (users w))
       ∧ outbox (final r) = outbox w ++ [PutAvailability technicianId true None])
  ∧ ("solved" ≠ "solved" → outbox (final r) = outbox w)
  ∧ (Some "U" = None → outbox (final r) = outbox w)
  ∧ (∀ technicianId,
       Some "U" = Some technicianId →
       Firestore.lookup_doc technicianId (users w) = None →
       outbox (final r) = outbox w)
  ∧ (∀ technicianId,
       "solved" = "solved" →
       Some "U" = Some technicianId →
       technicianId ≠ "" →
       is_Some (Firestore.lookup_doc technicianId (users w)) →
       false = false →
       outbox (final r) = outbox w ++ [PutAvailability technicianId true None]).
Proof.
  apply (put_problem_peer_call Sample.env "p9" "solved"
           (created_problem Sample.env Sample.leak (Some "U"))
           (final (post_problems Sample.env Sample.leak Sample.world))).
  vm_compute. reflexivity.
Defined.

(** ** The trigger *)

Lemma trigger_run problemId snapshot w :
  ∃ line,
    assignTechnicianToProblem problemId snapshot w
    = Ok () (mkWorld (users w)
               (match snapshot with
                | Some p =>
                    if isPredefined p then problems w
                    else match List.filter (λ d, matching (type p) d.2) (users w),
                               problems w !! problemId with
                         | doc :: _, Some q =>
                             <[problemId := set_assignedTechnician doc.1 q]>
                               (problems w)
                         | _, _ => problems w
                         end
                | None => problems w
                end)
               (console w ++ [line]) (outbox w)).
Proof.
  destruct snapshot as [p |]; [| by eexists].
  destruct (isPredefined p) eqn:Hp.
  { rewrite (trigger_skips_predefined problemId p w Hp). by eexists. }
  destruct (problems w !! problemId) as [q |] eqn:Hq.
  - rewrite (trigger_regular problemId p q w Hp Hq).
    destruct (List.filter _ (users w)); by eexists.
  - unfold assignTechnicianToProblem, try_catch, mbind, M_bind,
      Firestore.query_users, Firestore.limit, Firestore.update_problem,
      console_log.
    rewrite Hp. cbn.
    destruct (List.filter _ (users w)) as [| doc rest]; cbn; [by eexists |].
    rewrite Hq. by eexists.
Qed.

(** X16. The trigger on an id that is no longer stored (the problem was
    deleted before the trigger ran) creates nothing: problems and users
    are as before, the trigger returns normally, and the only trace is
    one console line; when a technician matched, that line is the
    store's error. *)
Theorem trigger_on_deleted_problem (problemId : string)
    (snapshot : option Problem) (w : World) :
  problems w !! problemId = None →
  (∃ line,
     assignTechnicianToProblem problemId snapshot w
     = Ok () (mkWorld (users w) (problems w) (console w ++ [line]) (outbox w)))
  ∧ (∀ p doc rest,
       snapshot = Some p →
       isPredefined p = false →
       List.filter (λ d, matching (type p) d.2) (users w) = doc :: rest →
       console (final (assignTechnicianToProblem problemId snapshot w))
       = console w ++ ["Error assigning technician: NOT_FOUND"]).
Proof.
  intros Hmissing. split.
  - destruct (trigger_run problemId snapshot w) as [line Hrun].
    exists line. rewrite Hrun. f_equal. f_equal.
    destruct snapshot as [p |]; [| done].
    destruct (isPredefined p); [done |]. rewrite Hmissing.
    by destruct (List.filter _ (users w)).
  - intros p doc rest -> Hp Hmatch.
    unfold assignTechnicianToProblem, try_catch, mbind, M_bind,
      Firestore.query_users, Firestore.limit, Firestore.update_problem,
      console_log.
    rewrite Hp. cbn. rewrite Hmatch. cbn. by rewrite Hmissing.
Qed.

Lemma trigger_on_deleted_problem_witness :
  (∃ line,
     assignTechnicianToProblem "p404"
       (Some (created_problem Sample.env Sample.leak None)) Sample.world
     = Ok () (mkWorld Sample.staff ∅ ([] ++ [line]) []))
  ∧ (∀ p doc rest,
       Some (created_problem Sample.env Sample.leak None) = Some p →
       isPredefined p = false →
       List.filter (λ d, matching (type p) d.2) Sample.staff = doc :: rest →
       console (final (assignTechnicianToProblem "p404"
                         (Some (created_problem Sample.env Sample.leak None))
                         Sample.world))
       = [] ++ ["Error assigning technician: NOT_FOUND"]).
Proof.
  apply (trigger_on_deleted_problem "p404"
           (Some (created_problem Sample.env Sample.leak None)) Sample.world).
  vm_compute. reflexivity.
Defined.

(** X17. The trigger is idempotent on the store: run a second time on
    the same event, it leaves problems and users exactly as the first
    run left them.  It never throws. *)
Theorem trigger_idempotent (problemId : string) (snapshot : option Problem)
    (w : World) :
  let w1 := final (assignTechnicianToProblem problemId snapshot w) in
  let w2 := final (assignTechnicianToProblem problemId snapshot w1) in
  problems w2 = problems w1
  ∧ users w2 = users w1
  ∧ users w1 = users w
  ∧ value (assignTechnicianToProblem problemId snapshot w) = Some ()
  ∧ value (assignTechnicianToProblem problemId snapshot w1) = Some ().
Proof.
  intros w1 w2. subst w1 w2.
  destruct (trigger_run problemId snapshot w) as [line Hrun].
  rewrite Hrun. cbn [final value].
  match goal with
  | |- context [assignTechnicianToProblem problemId snapshot ?w1] =>
      destruct (trigger_run problemId snapshot w1) as [line' Hrun'];
      rewrite Hrun'
  end.
  cbn [final value problems users]. split_and!; try done.
  destruct snapshot as [p |]; [| done].
  destruct (isPredefined p); [done |].
  destruct (List.filter _ (users w)) as [| doc rest]; [done |].
  destruct (problems w !! problemId) as [q |] eqn:Hq.
  - rewrite lookup_insert_eq. by rewrite insert_insert_eq.
  - by rewrite Hq.
Qed.

(** X18. The trigger changes a stored problem only by writing
    [assignedTechnician], and only to the id of a stored user with role
    "technicien" whose speciality is the type carried by the event; all
    other fields, all other problems and all users are untouched. *)
Theorem trigger_assigns_only_matching (problemId : string) (p q q' : Problem)
    (w : World) :
  problems w !! problemId = Some q →
  problems (final (assignTechnicianToProblem problemId (Some p) w)) !! problemId
  = Some q' →
  q' ≠ q →
  isPredefined p = false
  ∧ (∃ technicianId u,
       (technicianId, u) ∈ users w
       ∧ role u = Some "technicien"
       ∧ speciality u = Some (type p)
       ∧ q' = set_assignedTechnician technicianId q)
  ∧ (∀ other,
       other ≠ problemId →
       problems (final (assignTechnicianToProblem problemId (Some p) w)) !! other
       = problems w !! other).
Proof.
  intros Hq Hq' Hchanged.
  destruct (trigger_run problemId (Some p) w) as [line Hrun].
  rewrite Hrun in Hq' |- *. cbn [final problems] in Hq' |- *.
  destruct (isPredefined p); [congruence |].
  destruct (List.filter (λ d, matching (type p) d.2) (users w))
    as [| [technicianId u] rest] eqn:Hmatch; [congruence |].
  rewrite Hq in Hq' |- *. rewrite lookup_insert_eq in Hq'.
  injection Hq' as <-. split_and!; [done | |].
  - exists technicianId, u.
    assert ((technicianId, u)
            ∈ List.filter (λ d, matching (type p) d.2) (users w)) as Hin.
    { rewrite Hmatch. left. }
    apply (elem_of_filter_docs (matching (type p))) in Hin as [Hin Hm].
    unfold matching in Hm. apply andb_true_iff in Hm as [Hrole Hspeciality].
    apply bool_decide_eq_true in Hrole, Hspeciality. done.
  - intros other Hother. by apply lookup_insert_ne.
Qed.

Lemma trigger_assigns_only_matching_witness :
  isPredefined (created_problem Sample.env Sample.leak (Some "U")) = false
  ∧ (∃ technicianId u,
       (technicianId, u)
       ∈ users (final (post_problems Sample.env Sample.leak Sample.world))
       ∧ role u = Some "technicien"
       ∧ speciality u = Some "plumbing"
       ∧ set_assignedTechnician "B"
           (created_problem Sample.env Sample.leak (Some "U"))
         = set_assignedTechnician technicianId
             (created_problem Sample.env Sample.leak (Some "U")))
  ∧ (∀ other,
       other ≠ "p9" →
       problems
         (final (assignTechnicianToProblem "p9"
                   (Some (created_problem Sample.env Sample.leak (Some "U")))
                   (final (post_problems Sample.env Sample.leak Sample.world))))
         !! other
       = problems (final (post_problems Sample.env Sample.leak Sample.world))
           !! other).
Proof.
  apply (trigger_assigns_only_matching "p9"
           (created_problem Sample.env Sample.leak (Some "U"))
           (created_problem Sample.env Sample.leak (Some "U"))
           (set_assignedTechnician "B"
              (created_problem Sample.env Sample.leak (Some "U")))
           (final (post_problems Sample.env Sample.leak Sample.world))).
  - vm_compute. reflexivity.
  - vm_compute. reflexivity.
  - discriminate.
Defined.

(** ** Who writes the users collection *)

Lemma post_predefined_users env req w :
  users (final (post_predefined env req w)) = users w.
Proof.
  unfold post_predefined, try_catch, mbind, M_bind, Firestore.add_problem.
  cbn. by destruct (problems w !! gen_id env).
Qed.

Lemma put_problem_users env problemId newStatus w :
  users (final (put_problem env problemId newStatus w)) = users w.
Proof.
  destruct (problems w !! problemId) as [p |] eqn:Hp.
  - rewrite (put_problem_found env problemId newStatus w p Hp).
    cbn [final]. by rewrite users_after_peer.
  - by rewrite (put_problem_missing env problemId newStatus w Hp).
Qed.

Lemma get_problems_id_world param w :
  users (final (get_problems_id param w)) = users w
  ∧ problems (final (get_problems_id param w)) = problems w
  ∧ outbox (final (get_problems_id param w)) = outbox w.
Proof.
  unfold get_problems_id, try_catch, mbind, M_bind.
  destruct (Path.doc param w) as [ref w' | e w'] eqn:Hdoc.
  - assert (w' = w) as ->.
    { unfold Path.doc in Hdoc. repeat case_match; congruence. }
    destruct ref as [| id [| ? ?]]; cbn; try done.
    by destruct (problems w !! id).
  - assert (w' = w) as ->.
    { unfold Path.doc in Hdoc. repeat case_match; congruence. }
    done.
Qed.

Lemma delete_problems_id_world param w :
  users (final (delete_problems_id param w)) = users w
  ∧ outbox (final (delete_problems_id param w)) = outbox w.
Proof.
  unfold delete_problems_id, try_catch, mbind, M_bind.
  destruct (Path.doc param w) as [ref w' | e w'] eqn:Hdoc.
  - assert (w' = w) as ->.
    { unfold Path.doc in Hdoc. repeat case_match; congruence. }
    by destruct ref as [| id [| ? ?]].
  - assert (w' = w) as ->.
    { unfold Path.doc in Hdoc. repeat case_match; congruence. }
    done.
Qed.

(** X19. Apart from POST /problems and a PUT with status "solved", no
    request changes a user or has one changed: creating a predefined
    problem, a PUT with any other status (on a stored id or not),
    DELETE on any parameter, the trigger and the reading routes leave
    every user document as it was and make no remote call.  (A PUT with
    status "solved" writes no user itself but may ask the
    user-management service to make the technician available again.) *)
Theorem users_changed_only_by_assign_and_solve (env : Env) (req : ProblemBody)
    (problemId newStatus param segment : string) (snapshot : option Problem)
    (q_chefId q_assignedTechnician : option string) (w : World) :
  newStatus ≠ "solved" →
  (users (final (post_predefined env req w)) = users w
   ∧ outbox (final (post_predefined env req w)) = outbox w)
  ∧ (users (final (put_problem env problemId newStatus w)) = users w
     ∧ outbox (final (put_problem env problemId newStatus w)) = outbox w)
  ∧ (users (final (delete_problems_id param w)) = users w
     ∧ outbox (final (delete_problems_id param w)) = outbox w)
  ∧ (users (final (assignTechnicianToProblem problemId snapshot w)) = users w
     ∧ outbox (final (assignTechnicianToProblem problemId snapshot w)) = outbox w)
  ∧ (users (final (get_problems q_chefId q_assignedTechnician w)) = users w
     ∧ outbox (final (get_problems q_chefId q_assignedTechnician w)) = outbox w)
  ∧ (users (final (route_get_problems segment w)) = users w
     ∧ outbox (final (route_get_problems segment w)) = outbox w).
Proof.
  intros Hstatus. split_and!; try done.
  - apply post_predefined_users.
  - unfold post_predefined, try_catch, mbind, M_bind, Firestore.add_problem.
    cbn. by destruct (problems w !! gen_id env).
  - apply put_problem_users.
  - destruct (problems w !! problemId) as [p |] eqn:Hp.
    + rewrite (put_problem_found env problemId newStatus w p Hp).
      cbn [final]. unfold after_peer.
      rewrite (bool_decide_eq_false_2 (newStatus = "solved")) by done.
      by destruct (assignedTechnician p).
    + by rewrite (put_problem_missing env problemId newStatus w Hp).
  - apply delete_problems_id_world.
  - apply delete_problems_id_world.
  - destruct (trigger_run problemId snapshot w) as [line Hrun].
    by rewrite Hrun.
  - destruct (trigger_run problemId snapshot w) as [line Hrun].
    by rewrite Hrun.
  - unfold route_get_problems. repeat case_bool_decide; try done.
    apply get_problems_id_world.
  - unfold route_get_problems. repeat case_bool_decide; try done.
    apply get_problems_id_world.
Qed.

Lemma users_changed_only_by_assign_and_solve_witness :
  let w := final (post_problems Sample.env Sample.leak Sample.world) in
  (users (final (post_predefined Sample.later Sample.leak w)) = users w
   ∧ outbox (final (post_predefined Sample.later Sample.leak w)) = outbox w)
  ∧ (users (final (put_problem Sample.later "p9" "progressing" w)) = users w
     ∧ outbox (final (put_problem Sample.later "p9" "progressing" w)) = outbox w)
  ∧ (users (final (delete_problems_id "p9" w)) = users w
     ∧ outbox (final (delete_problems_id "p9" w)) = outbox w)
  ∧ (users (final (assignTechnicianToProblem "p9" (problems w !! "p9") w))
     = users w
     ∧ outbox (final (assignTechnicianToProblem "p9" (problems w !! "p9") w))
       = outbox w)
  ∧ (users (final (get_problems None (Some "U") w)) = users w
     ∧ outbox (final (get_problems None (Some "U") w)) = outbox w)
  ∧ (users (final (route_get_problems "p9" w)) = users w
     ∧ outbox (final (route_get_problems "p9" w)) = outbox w).
Proof.
  apply (users_changed_only_by_assign_and_solve Sample.later Sample.leak
           "p9" "progressing" "p9" "p9"
           (problems (final (post_problems Sample.env Sample.leak Sample.world))
              !! "p9")
           None (Some "U")
           (final (post_problems Sample.env Sample.leak Sample.world))).
  discriminate.
Defined.

(** ** Selection and the order of the query *)

Lemma selected_least snapshot technicianId n :
  selected snapshot (Some technicianId, Finite n) →
  (∃ u, (technicianId, u) ∈ snapshot ∧ workload u = n)
  ∧ (∀ d, d ∈ snapshot → n ≤ workload d.2).
Proof.
  intros H. inversion H as [| before id u after Hsnap Hb Ha]. subst. split.
  - exists u. split; [| done]. apply elem_of_app. right. left.
  - intros d [Hd | [-> | Hd]%elem_of_cons]%elem_of_app.
    + rewrite Forall_forall in Hb. specialize (Hb d Hd). simpl in Hb. lia.
    + done.
    + rewrite Forall_forall in Ha. by apply Ha.
Qed.

(** X20. The order in which the query returns the technicians decides
    who is selected among those of least workload, but not the workload
    that is selected and reported: on two snapshots holding the same
    documents in different orders the loop ends with the same
    [minWorkload], and with a technician of exactly that workload. *)
Theorem select_technician_order (snapshot snapshot' : list (string * User)) :
  snapshot ≡ₚ snapshot' →
  (select_technician snapshot).2 = (select_technician snapshot').2
  ∧ (∀ technicianId,
       (select_technician snapshot').1 = Some technicianId →
       ∃ u, (technicianId, u) ∈ snapshot
            ∧ Finite (workload u) = (select_technician snapshot).2).
Proof.
  intros Hperm.
  pose proof (select_technician_selected snapshot) as Hsel.
  pose proof (select_technician_selected snapshot') as Hsel'.
  destruct (select_technician snapshot) as [assignee minWorkload].
  destruct (select_technician snapshot') as [assignee' minWorkload'].
  cbn [fst snd].
  inversion Hsel as [Hnil | before id u after Hsnap Hb Ha];
    inversion Hsel' as [Hnil' | before' id' u' after' Hsnap' Hb' Ha']; subst.
  - split; [done |]. by intros ? [=].
  - apply Permutation_nil_l in Hperm. by destruct before'.
  - symmetry in Hperm. apply Permutation_nil_l in Hperm. by destruct before.
  - destruct (selected_least _ _ _ Hsel) as [_ Hleast].
    destruct (selected_least _ _ _ Hsel') as [_ Hleast'].
    assert ((id, u) ∈ before' ++ (id', u') :: after') as Hin.
    { rewrite <- Hperm. apply elem_of_app. right. left. }
    assert ((id', u') ∈ before ++ (id, u) :: after) as Hin'.
    { rewrite Hperm. apply elem_of_app. right. left. }
    specialize (Hleast (id', u') Hin'). specialize (Hleast' (id, u) Hin).
    simpl in Hleast, Hleast'.
    assert (workload u = workload u') as Heq by lia.
    split; [by rewrite Heq |].
    intros ? [= <-]. exists u'. by rewrite Heq.
Qed.

Lemma select_technician_order_witness :
  (select_technician
     (List.filter (λ d, qualified "plumbing" d.2) Sample.staff)).2
  = (select_technician
       (reverse (List.filter (λ d, qualified "plumbing" d.2) Sample.staff))).2
  ∧ (∀ technicianId,
       (select_technician
          (reverse (List.filter (λ d, qualified "plumbing" d.2) Sample.staff))).1
       = Some technicianId →
       ∃ u, (technicianId, u)
            ∈ List.filter (λ d, qualified "plumbing" d.2) Sample.staff
            ∧ Finite (workload u)
              = (select_technician
                   (List.filter (λ d, qualified "plumbing" d.2) Sample.staff)).2).
Proof.
  apply (select_technician_order
           (List.filter (λ d, qualified "plumbing" d.2) Sample.staff)
           (reverse (List.filter (λ d, qualified "plumbing" d.2) Sample.staff))).
  symmetry. apply reverse_Permutation.
Defined.

(** On the sample staff the two orders select different technicians of
    the same workload. *)
Example select_technician_order_sample :
  select_technician (List.filter (λ d, qualified "plumbing" d.2) Sample.staff)
  = (Some "U", Finite 0)
  ∧ select_technician
      (reverse (List.filter (λ d, qualified "plumbing" d.2) Sample.staff))
    = (Some "V", Finite 0).
Proof. split; vm_compute; reflexivity. Qed.
